(** * TranslatR: the request lifecycle of [TextSlangTranslator.tsx]

    A shallow embedding of the React component
    [src/app/components/TextSlangTranslator.tsx]: its [useState] cells, the
    [abortControllerRef] ref, the handlers [handleTranslate],
    [handleLevelSelect], [handleCopy] and [animateText], and the browser's
    event loop as far as the handlers use it (pending [fetch] promises,
    pending clipboard writes, animation-frame callbacks and timers).

    How React is modelled.  A handler is a closure of the render that created
    it: every state variable it reads ([inputText], [loading],
    [selectedLevel], [isClient], [translatedText]) has the value of that
    render, also after an [await].  A setter ([setLoading], ...) writes the
    state cell, which the next render shows; it never changes what the
    running closure reads.  The ref [abortControllerRef.current] is a shared
    mutable cell, read and written in place.  Each event (a click, a promise
    settling, a frame, a timer) runs to completion and React commits the new
    state before the next event is handled. *)

From Stdlib Require Import List Bool Arith NArith ZArith QArith Lia.
From Stdlib Require Import Ascii String DecimalString.
Import ListNotations.

Local Open Scope N_scope.

(* ================================================================== *)
(** ** JavaScript strings *)

Module JsString.

(** A JavaScript string is a sequence of UTF-16 code units. *)
Definition t := list N.

(** A literal of the source, all of whose characters are ASCII. *)
Definition lit (s : string) : t :=
  List.map N_of_ascii (list_ascii_of_string s).

(** [a === b] on strings: the same code units. *)
Fixpoint eqb (a b : t) : bool :=
  match a, b with
  | [], [] => true
  | x :: a', y :: b' => (x =? y) && eqb a' b'
  | _, _ => false
  end.

(** [!s] on a string: only the empty string is falsy. *)
Definition falsy (s : t) : bool :=
  match s with [] => true | _ :: _ => false end.

(** ECMAScript WhiteSpace and LineTerminator code points, the ones
    [String.prototype.trim] strips. *)
Definition is_white (c : N) : bool :=
  (c =? 9) || (c =? 10) || (c =? 11) || (c =? 12) || (c =? 13)
  || (c =? 32) || (c =? 160) || (c =? 5760)
  || ((8192 <=? c) && (c <=? 8202))
  || (c =? 8232) || (c =? 8233) || (c =? 8239) || (c =? 8287)
  || (c =? 12288) || (c =? 65279).

Fixpoint trimStart (s : t) : t :=
  match s with
  | [] => []
  | c :: r => if is_white c then trimStart r else s
  end.

Definition trimEnd (s : t) : t := rev (trimStart (rev s)).

Definition trim (s : t) : t := trimEnd (trimStart s).

(** [s.split('\n')]: the pieces between line feeds; never empty. *)
Fixpoint split_lines (s : t) : list t :=
  match s with
  | [] => [[]]
  | c :: r =>
      if c =? 10 then [] :: split_lines r
      else match split_lines r with
           | [] => [[c]]
           | l :: ls => (c :: l) :: ls
           end
  end.

(** A number in a template literal: its decimal digits. *)
Definition of_number (n : N) : t :=
  lit (NilEmpty.string_of_uint (N.to_uint n)).

End JsString.

Definition jsstring : Type := JsString.t.
Definition js (s : string) : jsstring := JsString.lit s.

(* ================================================================== *)
(** ** The catalog of slang levels *)

Record SlangLevel := {
  id : jsstring;
  label : jsstring;
  prompt : jsstring
}.

Definition slangLevels : list SlangLevel := [
  {| id := js "mild"; label := js "Mild Slang";
     prompt := js "Convert to mild internet slang" |};
  {| id := js "medium"; label := js "Medium Slang";
     prompt := js "Use moderate internet slang and abbreviations" |};
  {| id := js "heavy"; label := js "Heavy Slang";
     prompt := js "Use heavy internet slang and abbreviations" |};
  {| id := js "extreme"; label := js "Extreme Slang";
     prompt := js "Use extreme internet slang with lots of emoji" |};
  {| id := js "crazy"; label := js "Crazy Slang";
     prompt := js "Go absolutely wild with internet slang and emoji" |}
].

(** [slangLevels.find(level => level.id === selectedLevel)] *)
Definition find_level (selectedLevel : jsstring) : option SlangLevel :=
  List.find (fun level => JsString.eqb (id level) selectedLevel) slangLevels.

(* ================================================================== *)
(** ** Component state *)

(** The [useState] cells.  [translatedText] and [error] start as the empty
    string, which is what the component shows as "no result", "no error". *)
Record component := {
  inputText : jsstring;
  translatedText : jsstring;
  loading : bool;
  selectedLevel : jsstring;
  isFilterOpen : bool;
  copied : bool;
  isClient : bool;
  error : jsstring
}.

(** The body of the POST to [/api/translate], before [JSON.stringify]. *)
Record request := {
  text : jsstring;
  level : jsstring
}.

(** A [fetch] that has not settled: [handleTranslate] is suspended at its
    [await].  [controller] names the [AbortController] whose signal the fetch
    was given, [aborted] is that signal's flag, and [closure] is the render
    whose [handleTranslate] is suspended, with the values it will read when it
    resumes. *)
Record attempt := {
  controller : nat;
  aborted : bool;
  body : request;
  closure : component
}.

(** What a timer runs: [animateText] of some render, or
    [() => setCopied(false)]. *)
Inductive task :=
| AnimateText (r : component)
| ResetCopied.

(** The variables of the one call the component makes to the animation
    engine.  Seconds and pixels are rationals: [0.5] is [1/2], [0.1] is
    [1/10]. *)
Record from_vars := { from_y : Q; from_opacity : Q }.
Record to_vars := {
  to_y : Q; to_opacity : Q; duration : Q; stagger : Q; ease : jsstring
}.
Record gsap_call := {
  targets : list jsstring;
  call_from : from_vars;
  call_to : to_vars
}.

(** The component together with the part of the browser it talks to. *)
Record world := {
  ui : component;                     (* the committed state *)
  abortControllerRef : option nat;    (* [abortControllerRef.current] *)
  textRef : bool;                     (* [textRef.current] is attached *)
  fetches : list attempt;             (* fetches that have not settled *)
  clipboard : list (nat * jsstring);  (* clipboard writes not settled *)
  frames : list component;            (* [requestAnimationFrame] callbacks *)
  timers : list (N * task);           (* [setTimeout], by time due (ms) *)
  now : N;                            (* the clock, in milliseconds *)
  fresh : nat;                        (* next object identity *)
  gsap_calls : list gsap_call         (* calls of [gsap.fromTo], oldest first *)
}.

Definition with_ui (f : component -> component) (w : world) : world :=
  {| ui := f (ui w); abortControllerRef := abortControllerRef w;
     textRef := textRef w; fetches := fetches w; clipboard := clipboard w;
     frames := frames w; timers := timers w; now := now w; fresh := fresh w;
     gsap_calls := gsap_calls w |}.

Definition setInputText (v : jsstring) : world -> world :=
  with_ui (fun c =>
    {| inputText := v; translatedText := translatedText c;
       loading := loading c; selectedLevel := selectedLevel c;
       isFilterOpen := isFilterOpen c; copied := copied c;
       isClient := isClient c; error := error c |}).

Definition setTranslatedText (v : jsstring) : world -> world :=
  with_ui (fun c =>
    {| inputText := inputText c; translatedText := v;
       loading := loading c; selectedLevel := selectedLevel c;
       isFilterOpen := isFilterOpen c; copied := copied c;
       isClient := isClient c; error := error c |}).

Definition setLoading (v : bool) : world -> world :=
  with_ui (fun c =>
    {| inputText := inputText c; translatedText := translatedText c;
       loading := v; selectedLevel := selectedLevel c;
       isFilterOpen := isFilterOpen c; copied := copied c;
       isClient := isClient c; error := error c |}).

Definition setSelectedLevel (v : jsstring) : world -> world :=
  with_ui (fun c =>
    {| inputText := inputText c; translatedText := translatedText c;
       loading := loading c; selectedLevel := v;
       isFilterOpen := isFilterOpen c; copied := copied c;
       isClient := isClient c; error := error c |}).

Definition setIsFilterOpen (v : bool) : world -> world :=
  with_ui (fun c =>
    {| inputText := inputText c; translatedText := translatedText c;
       loading := loading c; selectedLevel := selectedLevel c;
       isFilterOpen := v; copied := copied c;
       isClient := isClient c; error := error c |}).

Definition setCopied (v : bool) : world -> world :=
  with_ui (fun c =>
    {| inputText := inputText c; translatedText := translatedText c;
       loading := loading c; selectedLevel := selectedLevel c;
       isFilterOpen := isFilterOpen c; copied := v;
       isClient := isClient c; error := error c |}).

Definition setIsClient (v : bool) : world -> world :=
  with_ui (fun c =>
    {| inputText := inputText c; translatedText := translatedText c;
       loading := loading c; selectedLevel := selectedLevel c;
       isFilterOpen := isFilterOpen c; copied := copied c;
       isClient := v; error := error c |}).

Definition setError (v : jsstring) : world -> world :=
  with_ui (fun c =>
    {| inputText := inputText c; translatedText := translatedText c;
       loading := loading c; selectedLevel := selectedLevel c;
       isFilterOpen := isFilterOpen c; copied := copied c;
       isClient := isClient c; error := v |}).

(** [abortControllerRef.current = v] *)
Definition set_abortControllerRef (v : option nat) (w : world) : world :=
  {| ui := ui w; abortControllerRef := v;
     textRef := textRef w; fetches := fetches w; clipboard := clipboard w;
     frames := frames w; timers := timers w; now := now w; fresh := fresh w;
     gsap_calls := gsap_calls w |}.

Definition set_textRef (v : bool) (w : world) : world :=
  {| ui := ui w; abortControllerRef := abortControllerRef w;
     textRef := v; fetches := fetches w; clipboard := clipboard w;
     frames := frames w; timers := timers w; now := now w; fresh := fresh w;
     gsap_calls := gsap_calls w |}.

Definition set_fetches (v : list attempt) (w : world) : world :=
  {| ui := ui w; abortControllerRef := abortControllerRef w;
     textRef := textRef w; fetches := v; clipboard := clipboard w;
     frames := frames w; timers := timers w; now := now w; fresh := fresh w;
     gsap_calls := gsap_calls w |}.

Definition set_clipboard (v : list (nat * jsstring)) (w : world) : world :=
  {| ui := ui w; abortControllerRef := abortControllerRef w;
     textRef := textRef w; fetches := fetches w; clipboard := v;
     frames := frames w; timers := timers w; now := now w; fresh := fresh w;
     gsap_calls := gsap_calls w |}.

Definition set_frames (v : list component) (w : world) : world :=
  {| ui := ui w; abortControllerRef := abortControllerRef w;
     textRef := textRef w; fetches := fetches w; clipboard := clipboard w;
     frames := v; timers := timers w; now := now w; fresh := fresh w;
     gsap_calls := gsap_calls w |}.

Definition set_timers (v : list (N * task)) (w : world) : world :=
  {| ui := ui w; abortControllerRef := abortControllerRef w;
     textRef := textRef w; fetches := fetches w; clipboard := clipboard w;
     frames := frames w; timers := v; now := now w; fresh := fresh w;
     gsap_calls := gsap_calls w |}.

Definition set_now (v : N) (w : world) : world :=
  {| ui := ui w; abortControllerRef := abortControllerRef w;
     textRef := textRef w; fetches := fetches w; clipboard := clipboard w;
     frames := frames w; timers := timers w; now := v; fresh := fresh w;
     gsap_calls := gsap_calls w |}.

Definition set_fresh (v : nat) (w : world) : world :=
  {| ui := ui w; abortControllerRef := abortControllerRef w;
     textRef := textRef w; fetches := fetches w; clipboard := clipboard w;
     frames := frames w; timers := timers w; now := now w; fresh := v;
     gsap_calls := gsap_calls w |}.

Definition set_gsap_calls (v : list gsap_call) (w : world) : world :=
  {| ui := ui w; abortControllerRef := abortControllerRef w;
     textRef := textRef w; fetches := fetches w; clipboard := clipboard w;
     frames := frames w; timers := timers w; now := now w; fresh := fresh w;
     gsap_calls := v |}.

(** The first render: the arguments of the [useState] calls, no controller,
    nothing pending. *)
Definition initial_component : component :=
  {| inputText := []; translatedText := []; loading := false;
     selectedLevel := js "medium"; isFilterOpen := false; copied := false;
     isClient := false; error := [] |}.

Definition initial_world : world :=
  {| ui := initial_component; abortControllerRef := None; textRef := false;
     fetches := []; clipboard := []; frames := []; timers := []; now := 0;
     fresh := 0%nat; gsap_calls := [] |}.

(* ================================================================== *)
(** ** The browser facilities the handlers call *)

(** [controller.abort()]: raises the flag of that controller's signal; a
    fetch bound to it will settle as an [AbortError]. *)
Definition abort (c : nat) (w : world) : world :=
  set_fetches
    (List.map (fun a =>
       if Nat.eqb (controller a) c
       then {| controller := controller a; aborted := true;
               body := body a; closure := closure a |}
       else a) (fetches w)) w.

(** [new AbortController()], stored in the ref. *)
Definition new_AbortController (w : world) : world :=
  set_fresh (S (fresh w)) (set_abortControllerRef (Some (fresh w)) w).

(** [await fetch('/api/translate', {..., body, signal})]: the request leaves
    and the handler of render [r] is suspended. *)
Definition fetch (c : nat) (b : request) (r : component) (w : world) : world :=
  set_fetches
    (fetches w ++ [{| controller := c; aborted := false; body := b;
                      closure := r |}]) w.

(** [setTimeout(t, delay)]: timers are kept in the order they fire, by time
    due and, among equals, oldest first. *)
Fixpoint insert_timer (due : N) (t : task) (l : list (N * task))
  : list (N * task) :=
  match l with
  | [] => [(due, t)]
  | (d, t') :: r =>
      if d <=? due then (d, t') :: insert_timer due t r
      else (due, t) :: l
  end.

Definition setTimeout (t : task) (delay : N) (w : world) : world :=
  set_timers (insert_timer (now w + delay) t (timers w)) w.

(** [requestAnimationFrame(() => { setTimeout(animateText, 100); })], the
    [animateText] being the one of render [r]. *)
Definition requestAnimationFrame (r : component) (w : world) : world :=
  set_frames (frames w ++ [r]) w.

(** [await navigator.clipboard.writeText(t)] *)
Definition writeText (t : jsstring) (w : world) : world :=
  set_fresh (S (fresh w)) (set_clipboard (clipboard w ++ [(fresh w, t)]) w).

(** [gsap.fromTo(elements, from, to)] *)
Definition gsap_fromTo (elements : list jsstring) (f : from_vars)
    (t : to_vars) (w : world) : world :=
  set_gsap_calls
    (gsap_calls w ++ [{| targets := elements; call_from := f; call_to := t |}])
    w.

(* ================================================================== *)
(** ** What is rendered under [textRef] *)

(** [renderTranslatedText]: nothing for an empty text, else one [div] per
    line. *)
Definition renderTranslatedText (t : jsstring) : list jsstring :=
  if JsString.falsy t then [] else JsString.split_lines t.

(** [textRef.current.children] of a committed state, each element given by
    its text. *)
Definition children (c : component) : list jsstring :=
  if loading c then [js "Translating..."]
  else renderTranslatedText (translatedText c).

(* ================================================================== *)
(** ** The handlers *)

(** Every handler takes the render [r] it is a closure of, and the world it
    runs in. *)

Definition animateText (r : component) (w : world) : world :=
  if negb (isClient r) || negb (textRef w) || JsString.falsy (translatedText r)
  then w
  else
    let elements := children (ui w) in
    if (List.length elements =? 0)%nat then w
    else
      gsap_fromTo elements
        {| from_y := 50; from_opacity := 0 |}
        {| to_y := 0; to_opacity := 1; duration := 1 # 2; stagger := 1 # 10;
           ease := js "power1.out" |}
        w.

(** [handleCopy] up to its [await]. *)
Definition handleCopy (r : component) (w : world) : world :=
  if negb (isClient r) || JsString.falsy (translatedText r) then w
  else writeText (translatedText r) w.

(** [handleCopy] from its [await] on: the write resolved ([ok]) or was
    rejected. *)
Definition handleCopy_resume (ok : bool) (w : world) : world :=
  if ok then setTimeout ResetCopied 2000 (setCopied true w)
  else setError (js "Failed to copy text") w.

(** What a [throw] carries: the [AbortError] of an aborted fetch, or an
    error with its message. *)
Inductive exn :=
| AbortError
| Error (message : jsstring).

(** How a fetch settles when it is not aborted: it is rejected (the network
    failed), or a response arrives with a status and a body; the body fails
    to parse or is missing altogether ([response.json()] or the read of the
    field throws), or it is an object whose field [translatedText] is absent
    ([None]; also [null]) or a string.  The translation service answers with
    a string in that field; other JSON values are left out. *)
Inductive json_body :=
| Unreadable (message : jsstring)
| Data (translatedText_field : option jsstring).

Inductive outcome :=
| Rejected (message : jsstring)
| Response (status : N) (data : json_body).

(** [response.ok] *)
Definition ok (status : N) : bool := (200 <=? status) && (status <=? 299).

(** The [try] block from the [await fetch] on: the error it throws, or the
    translation it goes on with.  A fetch whose signal was aborted is
    rejected with an [AbortError], whatever the network did ([o] is what
    would have come otherwise). *)
Definition try_block (a : attempt) (o : outcome) : exn + jsstring :=
  if aborted a then inl AbortError
  else
    match o with
    | Rejected m => inl (Error m)
    | Response status data =>
        if negb (ok status)
        then inl (Error (js "Translation failed: " ++ JsString.of_number status))
        else
          match data with
          | Unreadable m => inl (Error m)
          | Data None => inl (Error (js "No translation received"))
          | Data (Some t) =>
              if JsString.falsy t
              then inl (Error (js "No translation received"))
              else inr t
          end
    end.

(** The [catch] block.  Its [return] for an [AbortError] leaves the block,
    not the [finally] that follows. *)
Definition catch_block (e : exn) (w : world) : world :=
  match e with
  | AbortError => w
  | Error message =>
      let w := setError
                 (if JsString.falsy message
                  then js "Translation failed. Please try again."
                  else message) w in
      setTranslatedText [] w
  end.

(** The [finally] block: it runs however the [try] and the [catch] end. *)
Definition finally_block (w : world) : world :=
  set_abortControllerRef None (setLoading false w).

(** [handleTranslate] up to its [await] (or to its end, when it does not get
    that far). *)
Definition handleTranslate (r : component) (forceTranslate : bool) (w : world)
  : world :=
  if JsString.falsy (JsString.trim (inputText r))
     || (loading r && negb forceTranslate)
  then w
  else
    let w := match abortControllerRef w with
             | Some c => abort c w
             | None => w
             end in
    let w := new_AbortController w in
    let w := setLoading true w in
    let w := setError [] w in
    match find_level (selectedLevel r) with
    | None => finally_block (catch_block (Error (js "Invalid slang level")) w)
    | Some selectedLevelConfig =>
        match abortControllerRef w with
        | Some c =>
            fetch c {| text := inputText r;
                       level := prompt selectedLevelConfig |} r w
        | None => w
        end
    end.

(** [handleTranslate] from its [await] on, for the attempt [a] whose fetch
    settled with [o]. *)
Definition handleTranslate_resume (a : attempt) (o : outcome) (w : world)
  : world :=
  match try_block a o with
  | inr t =>
      let w := setTranslatedText t w in
      let w := setIsFilterOpen false w in
      let w := if isClient (closure a)
               then requestAnimationFrame (closure a) w
               else w in
      finally_block w
  | inl e => finally_block (catch_block e w)
  end.

Definition handleLevelSelect (r : component) (levelId : jsstring) (w : world)
  : world :=
  let w := setSelectedLevel levelId w in
  if negb (JsString.falsy (JsString.trim (inputText r)))
  then handleTranslate r true w
  else w.

(** The effect of the first render: [setIsClient(true)]; [textRef] was
    attached by the commit before it. *)
Definition mount (w : world) : world := setIsClient true (set_textRef true w).

(** The cleanup of that effect. *)
Definition unmount (w : world) : world :=
  let w := match abortControllerRef w with
           | Some c => abort c w
           | None => w
           end in
  set_textRef false w.

(* ================================================================== *)
(** ** The event loop *)

(** What can happen to the mounted component: the user acts on it (the
    handler called is the one of the committed render), or the browser
    settles a promise, runs the animation-frame callbacks, or lets time
    pass. *)
Inductive event :=
| Mount
| Unmount
| InputChange (v : jsstring)            (* [onChange] of a textarea *)
| Translate (forceTranslate : bool)     (* [handleTranslate(forceTranslate)] *)
| LevelSelect (levelId : jsstring)      (* [handleLevelSelect(levelId)] *)
| ToggleFilter                          (* [setIsFilterOpen(!isFilterOpen)] *)
| Copy                                  (* [handleCopy()] *)
| PlayAgain                             (* [animateText()] *)
| FetchSettled (c : nat) (o : outcome)
| ClipboardSettled (k : nat) (resolved : bool)
| Frame
| Advance (dt : N).

Definition find_attempt (c : nat) (l : list attempt) : option attempt :=
  List.find (fun a => Nat.eqb (controller a) c) l.

Definition remove_attempt (c : nat) (l : list attempt) : list attempt :=
  List.filter (fun a => negb (Nat.eqb (controller a) c)) l.

Definition run_task (t : task) (w : world) : world :=
  match t with
  | AnimateText r => animateText r w
  | ResetCopied => setCopied false w
  end.

(** The timers that are due fire in order; each leaves the queue and then
    runs. *)
Fixpoint fire (l : list (N * task)) (w : world) : world :=
  match l with
  | [] => w
  | (due, t) :: rest =>
      if due <=? now w then fire rest (run_task t (set_timers rest w))
      else w
  end.

Definition run_frames (w : world) : world :=
  List.fold_left (fun w r => setTimeout (AnimateText r) 100 w) (frames w)
    (set_frames [] w).

Definition step (e : event) (w : world) : world :=
  match e with
  | Mount => mount w
  | Unmount => unmount w
  | InputChange v => setInputText v w
  | Translate forceTranslate => handleTranslate (ui w) forceTranslate w
  | LevelSelect levelId => handleLevelSelect (ui w) levelId w
  | ToggleFilter => setIsFilterOpen (negb (isFilterOpen (ui w))) w
  | Copy => handleCopy (ui w) w
  | PlayAgain => animateText (ui w) w
  | FetchSettled c o =>
      match find_attempt c (fetches w) with
      | Some a =>
          handleTranslate_resume a o
            (set_fetches (remove_attempt c (fetches w)) w)
      | None => w
      end
  | ClipboardSettled k resolved =>
      if List.existsb (fun p => Nat.eqb (fst p) k) (clipboard w)
      then handleCopy_resume resolved
             (set_clipboard
                (List.filter (fun p => negb (Nat.eqb (fst p) k)) (clipboard w))
                w)
      else w
  | Frame => run_frames w
  | Advance dt =>
      let w := set_now (now w + dt) w in
      fire (timers w) w
  end.

Definition run (es : list event) (w : world) : world :=
  List.fold_left (fun w e => step e w) es w.

(** The attempts whose request is in flight and not cancelled. *)
Definition pending (w : world) : list attempt :=
  List.filter (fun a => negb (aborted a)) (fetches w).

(** The attempt [a] is in flight in [w] and was not cancelled. *)
Definition in_flight (a : attempt) (w : world) : Prop :=
  find_attempt (controller a) (fetches w) = Some a /\ aborted a = false.

(* ================================================================== *)
(** ** Well-formed worlds *)

Fixpoint sorted (l : list (N * task)) : bool :=
  match l with
  | [] => true
  | (d, _) :: r =>
      match r with
      | [] => true
      | (d', _) :: _ => (d <=? d') && sorted r
      end
  end.

(** What every world the component can be in satisfies: controllers in use
    are older than the next identity, and the timers are in firing order. *)
Definition wf (w : world) : Prop :=
  Forall (fun a => (controller a < fresh w)%nat) (fetches w)
  /\ sorted (timers w) = true.



(** The worlds the component can reach: its life starts with the effect of
    the first render, then any events follow. *)
Definition reachable (w : world) : Prop :=
  exists es : list event, w = run (Mount :: es) initial_world.

(** The call [animateText] makes on the elements [els]. *)
Definition animation (els : list jsstring) : gsap_call :=
  {| targets := els;
     call_from := {| from_y := 50; from_opacity := 0 |};
     call_to := {| to_y := 0; to_opacity := 1; duration := 1 # 2;
                   stagger := 1 # 10; ease := js "power1.out" |} |}.

(* ================================================================== *)
(** ** Scenarios *)

Definition translation (t : string) : outcome :=
  Response 200 (Data (Some (js t))).

(** The user types a text and asks for a translation twice in a row: the
    second attempt aborts the first. *)
Definition two_translates : list event :=
  [Mount; InputChange (js "hello world"); Translate true; Translate true].

(** ... the aborted fetch of the first attempt settles, as it does right
    after the abort ... *)
Definition aborted_settles : list event :=
  two_translates ++ [FetchSettled 0 (Rejected (js "The user aborted a request."))].

(** ... and the user asks a third time. *)
Definition third_translate : list event :=
  aborted_settles ++ [Translate true].

(** The user types a text and picks the level [crazy]. *)
Definition select_crazy : list event :=
  [Mount; InputChange (js "hello world"); LevelSelect (js "crazy")].

(** A first translation, from the click to the response. *)
Definition first_translation : list event :=
  [Mount; InputChange (js "hello world"); Translate true;
   FetchSettled 0 (translation "omg hello world fr fr")].

(** With a result on the page the user asks again and, while the request is
    in flight, copies the old result; the clipboard refuses. *)
Definition copy_rejected_in_flight : list event :=
  first_translation ++ [Translate true; Copy; ClipboardSettled 2 false].

(** The same, the copy being asked for before the second request starts and
    refused after. *)
Definition copy_rejected_late : list event :=
  first_translation ++ [Copy; Translate true; ClipboardSettled 1 false].

(** After a first translation the animation frame comes, and the timer of
    the animation is set. *)
Definition first_animation_due : list event :=
  first_translation ++ [Frame].


(* ================================================================== *)
(** ** Statements that the component does not satisfy as they stand *)

(** A translation that arrives leaves no error on the page. *)
Definition success_leaves_no_error : Prop :=
  forall (w : world) (a : attempt) (status : N) (t : jsstring),
    reachable w -> in_flight a w -> ok status = true -> t <> [] ->
    let w' := step (FetchSettled (controller a)
                      (Response status (Data (Some t)))) w in
    translatedText (ui w') = t /\ loading (ui w') = false
    /\ error (ui w') = [].

(** Called on rendered elements, the animator always plays. *)
Definition animator_always_plays : Prop :=
  forall (w : world) (r : component),
    reachable w -> textRef w = true -> children (ui w) <> [] ->
    (r = ui w \/ exists due, In (due, AnimateText r) (timers w)) ->
    gsap_calls (animateText r w)
    = gsap_calls w ++ [animation (children (ui w))].

(** After a completion that was not cancelled, a result and an error are
    never both on the page. *)
Definition result_or_error_not_both : Prop :=
  forall (w : world) (a : attempt) (o : outcome),
    reachable w -> in_flight a w ->
    let w' := step (FetchSettled (controller a) o) w in
    translatedText (ui w') = [] \/ error (ui w') = [].


(* ================================================================== *)
(** ** What the page offers *)

(** A text that [trim] empties: every code unit is white space. *)
Definition blank (s : jsstring) : bool := List.forallb JsString.is_white s.

(** The [disabled] attribute of the two Translate buttons:
    [loading || !inputText.trim()]. *)
Definition translate_disabled (c : component) : bool :=
  loading c || JsString.falsy (JsString.trim (inputText c)).

(** The level buttons are [slangLevels.map(level => ...)], each calling
    [handleLevelSelect(level.id)]: a run in which every level picked is one
    of the catalog. *)
Definition catalog_select (e : event) : bool :=
  match e with
  | LevelSelect levelId =>
      List.existsb (fun l => JsString.eqb (id l) levelId) slangLevels
  | _ => true
  end.

(** The lines put back together, a line feed between two of them; what
    [renderTranslatedText] took apart. *)
Fixpoint join_lines (ls : list jsstring) : jsstring :=
  match ls with
  | [] => []
  | l :: r =>
      match r with
      | [] => l
      | _ :: _ => l ++ 10 :: join_lines r
      end
  end.

(** [loading] and the ref go together, and the controller in the ref is the
    one of a fetch that has not settled. *)
Definition tracked (w : world) : Prop :=
  match abortControllerRef w with
  | Some c =>
      loading (ui w) = true
      /\ exists a, find_attempt c (fetches w) = Some a
  | None => loading (ui w) = false
  end.

(** A request as [handleTranslate] can issue one: a text that is not blank
    and the prompt of a level of the catalog. *)
Definition well_formed_request (b : request) : Prop :=
  JsString.trim (text b) <> []
  /\ exists l, In l slangLevels /\ level b = prompt l.

(** A call as [animateText] can make one: on at least one element, from
    the offset and transparent state, with the variables of the source. *)
Definition animateText_call (c : gsap_call) : Prop :=
  targets c <> [] /\ c = animation (targets c).

(* ================================================================== *)
(** ** Basic facts *)

Ltac setters :=
  cbn [finally_block catch_block requestAnimationFrame fetch
       new_AbortController abort writeText gsap_fromTo setTimeout
       setInputText setTranslatedText setLoading setSelectedLevel
       setIsFilterOpen setCopied setIsClient setError
       set_abortControllerRef set_textRef set_fetches set_clipboard
       set_frames set_timers set_now set_fresh set_gsap_calls with_ui
       ui abortControllerRef textRef fetches clipboard frames timers now
       fresh gsap_calls inputText translatedText loading selectedLevel
       isFilterOpen copied isClient error] in *.

Lemma run_cons (e : event) (es : list event) (w : world) :
  run (e :: es) w = run es (step e w).
Proof. reflexivity. Qed.

Lemma falsy_cons (s : jsstring) : JsString.falsy s = false <-> s <> [].
Proof. destruct s; simpl; split; congruence. Qed.

(** The error message of a failure is never empty: an empty [message] is
    replaced by the fallback. *)
Lemma catch_block_Error (m : jsstring) (w : world) :
  error (ui (catch_block (Error m) w)) <> []
  /\ translatedText (ui (catch_block (Error m) w)) = [].
Proof.
  setters. split; [|reflexivity].
  destruct m; simpl; [vm_compute|]; discriminate.
Qed.

(** What the [try] block throws for a fetch that was not aborted is an
    [Error], never the [AbortError]. *)
Lemma try_block_not_aborted (a : attempt) (o : outcome) :
  aborted a = false ->
  (exists m, try_block a o = inl (Error m))
  \/ (exists t, try_block a o = inr t /\ t <> []).
Proof.
  intros Ha. unfold try_block. rewrite Ha.
  destruct o as [m | status data]; [left; eauto|].
  destruct (ok status); simpl; [|left; eauto].
  destruct data as [m | [t|]]; [left; eauto| |left; eauto].
  destruct t as [|c t]; simpl; [left; eauto|].
  right. eexists. split; [reflexivity|discriminate].
Qed.

(** A settled fetch of an attempt in the list resumes its handler. *)
Lemma step_FetchSettled (w : world) (a : attempt) (o : outcome) :
  find_attempt (controller a) (fetches w) = Some a ->
  step (FetchSettled (controller a) o) w
  = handleTranslate_resume a o
      (set_fetches (remove_attempt (controller a) (fetches w)) w).
Proof. intros H. simpl. now rewrite H. Qed.

(** Every completion, cancelled or not, goes through the [finally] block. *)
Lemma resume_finally (a : attempt) (o : outcome) (w : world) :
  loading (ui (handleTranslate_resume a o w)) = false
  /\ abortControllerRef (handleTranslate_resume a o w) = None.
Proof.
  unfold handleTranslate_resume.
  destruct (try_block a o) as [[|m]|t]; [| |destruct (isClient (closure a))];
    setters; split; reflexivity.
Qed.

(** A cancelled completion is the [finally] block and nothing else. *)
Lemma resume_cancelled (a : attempt) (o : outcome) (w : world) :
  aborted a = true ->
  handleTranslate_resume a o w = finally_block w.
Proof.
  intros Ha. unfold handleTranslate_resume, try_block. now rewrite Ha.
Qed.

(* ================================================================== *)
(** ** The guard of [handleTranslate] *)

(** C5.  When the trimmed [inputText] is empty, [handleTranslate] does
    nothing whatever [forceTranslate] is; when [loading] is true and
    [forceTranslate] is false, it does nothing either.  Nothing means the
    world is the same: no state cell is written, no controller is aborted
    or made, no request leaves. *)
Theorem handleTranslate_noop (r : component) (forceTranslate : bool)
    (w : world) :
  JsString.trim (inputText r) = []
  \/ (loading r = true /\ forceTranslate = false) ->
  handleTranslate r forceTranslate w = w.
Proof.
  intros [Hempty | [Hloading Hforce]]; unfold handleTranslate.
  - now rewrite Hempty.
  - rewrite Hloading, Hforce. now rewrite orb_true_r.
Qed.

Lemma handleTranslate_noop_witness :
  (JsString.trim (inputText (ui (run [Mount; InputChange (js "  ")]
                                     initial_world))) = []
   \/ (loading (ui (run [Mount; InputChange (js "  ")] initial_world)) = true
       /\ true = false))
  /\ step (Translate true) (run [Mount; InputChange (js "  ")] initial_world)
     = run [Mount; InputChange (js "  ")] initial_world.
Proof.
  split.
  - left. reflexivity.
  - apply (handleTranslate_noop
             (ui (run [Mount; InputChange (js "  ")] initial_world)) true
             (run [Mount; InputChange (js "  ")] initial_world)).
    left. reflexivity.
Defined.

(* ================================================================== *)
(** ** Completions that fail *)

(** C6.  An attempt in flight, not cancelled, whose response has a status
    outside 200..299 ends with [error] = "Translation failed: " followed by
    the status, and one whose response has such a status but no
    [translatedText], or an empty one, ends with [error] =
    "No translation received"; both with [translatedText] cleared and
    [loading] false. *)
Theorem failing_completion (w : world) (a : attempt) (status : N)
    (data : json_body) :
  in_flight a w ->
  let w' := step (FetchSettled (controller a) (Response status data)) w in
  (ok status = false ->
     error (ui w') = js "Translation failed: " ++ JsString.of_number status
     /\ translatedText (ui w') = [] /\ loading (ui w') = false)
  /\ (ok status = true -> data = Data None \/ data = Data (Some []) ->
     error (ui w') = js "No translation received"
     /\ translatedText (ui w') = [] /\ loading (ui w') = false).
Proof.
  intros [Hfind Hlive] w'. subst w'. rewrite (step_FetchSettled _ _ _ Hfind).
  unfold handleTranslate_resume, try_block. rewrite Hlive.
  split.
  - intros Hok. rewrite Hok. cbn [negb]. setters.
    repeat split.
  - intros Hok Hdata. rewrite Hok. cbn [negb].
    destruct Hdata as [-> | ->]; setters; repeat split.
Qed.

Lemma failing_completion_witness :
  let w := run [Mount; InputChange (js "hello world"); Translate true]
             initial_world in
  let a := {| controller := 0; aborted := false;
              body := {| text := js "hello world";
                         level := js "Use moderate internet slang and abbreviations" |};
              closure := ui (run [Mount; InputChange (js "hello world")]
                               initial_world) |} in
  in_flight a w
  /\ error (ui (step (FetchSettled 0 (Response 500 (Data None))) w))
     = js "Translation failed: 500"
  /\ error (ui (step (FetchSettled 0 (Response 200 (Data None))) w))
     = js "No translation received".
Proof.
  intros w a.
  assert (H : in_flight a w) by (split; reflexivity).
  split; [exact H|]. split.
  - exact (proj1 (proj1 (failing_completion w a 500 (Data None) H)
                   eq_refl)).
  - exact (proj1 (proj2 (failing_completion w a 200 (Data None) H)
                   eq_refl (or_introl eq_refl))).
Defined.

(* ================================================================== *)
(** ** Cancelled completions and the [finally] block *)

(** What a cancelled completion does, in any world: it writes neither
    [error] nor [translatedText], and it runs the [finally] block, which sets
    [loading] to false and empties [abortControllerRef]. *)
Lemma cancelled_completion (w : world) (a : attempt) (o : outcome) :
  find_attempt (controller a) (fetches w) = Some a -> aborted a = true ->
  let w' := step (FetchSettled (controller a) o) w in
  error (ui w') = error (ui w)
  /\ translatedText (ui w') = translatedText (ui w)
  /\ loading (ui w') = false
  /\ abortControllerRef w' = None.
Proof.
  intros Hfind Hdead w'. subst w'.
  rewrite (step_FetchSettled _ _ _ Hfind), (resume_cancelled _ _ _ Hdead).
  setters. repeat split.
Qed.

(** C1.  The component at the input [two_translates] followed by the
    settling of the aborted fetch.  Before it settles, the second attempt
    (controller 1) is in flight, [loading] is true and the ref holds
    controller 1.  The completion of the cancelled first attempt (controller
    0) leaves [error] and [translatedText] as they are, but sets [loading]
    to false and empties the ref, while the second attempt is still in
    flight. *)
Theorem cancelled_completion_resets_loading :
  let w := run two_translates initial_world in
  let w' := run aborted_settles initial_world in
  List.map (fun a => (controller a, aborted a)) (fetches w)
  = [(0%nat, true); (1%nat, false)]
  /\ loading (ui w) = true
  /\ abortControllerRef w = Some 1%nat
  /\ error (ui w') = error (ui w)
  /\ translatedText (ui w') = translatedText (ui w)
  /\ loading (ui w') = false
  /\ abortControllerRef w' = None
  /\ List.map (fun a => (controller a, aborted a)) (fetches w')
     = [(1%nat, false)].
Proof. vm_compute. repeat split. Qed.

(** C2.  The component at the input [third_translate]: the third attempt
    finds the ref empty, aborts nothing, and two attempts (controllers 1 and
    2) are in flight, neither cancelled. *)
Theorem two_attempts_in_flight :
  List.map controller (pending (run third_translate initial_world))
  = [1%nat; 2%nat].
Proof. vm_compute. reflexivity. Qed.

(** C3.  The component at the input [third_translate] followed by the
    response to the second attempt.  The ref holds the third attempt's
    controller 2; the completion of the second attempt (controller 1), which
    was not cancelled, sets [loading] to false and empties the ref, although
    the ref did not hold its controller; the third attempt stays in flight,
    out of reach of a later abort. *)
Theorem completion_clears_newer_handle :
  let w := run third_translate initial_world in
  let w' := step (FetchSettled 1 (translation "omg hello world fr fr")) w in
  abortControllerRef w = Some 2%nat
  /\ List.map controller (pending w) = [1%nat; 2%nat]
  /\ loading (ui w') = false
  /\ abortControllerRef w' = None
  /\ List.map controller (pending w') = [2%nat]
  /\ List.map controller (pending (step (Translate true) w'))
     = [2%nat; 3%nat].
Proof. vm_compute. repeat split. Qed.

(* ================================================================== *)
(** ** Selecting a level *)

(** The request [handleLevelSelect] issues carries the prompt of the level
    of the render it is called from, which [setSelectedLevel] does not
    change. *)
Lemma handleLevelSelect_request (w : world) (levelId : jsstring)
    (l : SlangLevel) :
  JsString.trim (inputText (ui w)) <> [] ->
  find_level (selectedLevel (ui w)) = Some l ->
  let w' := step (LevelSelect levelId) w in
  selectedLevel (ui w') = levelId
  /\ exists rest,
       fetches w'
       = rest ++ [{| controller := fresh w; aborted := false;
                     body := {| text := inputText (ui w);
                                level := prompt l |};
                     closure := ui w |}].
Proof.
  intros Hin Hl w'. subst w'. cbn [step]. unfold handleLevelSelect.
  apply falsy_cons in Hin. rewrite Hin. cbn [negb].
  unfold handleTranslate. rewrite Hin. cbn [negb].
  rewrite andb_false_r. cbn [orb].
  rewrite Hl.
  destruct (abortControllerRef (setSelectedLevel levelId w)) as [c|];
    setters; (split; [reflexivity|]); eexists; reflexivity.
Qed.

(** C4.  The component at the input [select_crazy]: the text is
    "hello world", the level is [medium], and the user picks [crazy].  A
    request is issued at once, but its [level] is the prompt of [medium],
    the level selected before, not the prompt of [crazy], which is now the
    selected level. *)
Theorem level_select_sends_previous_prompt :
  let w := run select_crazy initial_world in
  selectedLevel (ui w) = js "crazy"
  /\ List.map body (fetches w)
     = [{| text := js "hello world";
           level := js "Use moderate internet slang and abbreviations" |}]
  /\ find_level (js "crazy")
     = Some {| id := js "crazy"; label := js "Crazy Slang";
               prompt := js "Go absolutely wild with internet slang and emoji" |}
  /\ List.map (fun a => level (body a)) (fetches w)
     <> [js "Go absolutely wild with internet slang and emoji"].
Proof. vm_compute. repeat split. discriminate. Qed.

(* ================================================================== *)
(** ** Well-formedness is kept by every event *)

Lemma sorted_tail (x : N * task) (l : list (N * task)) :
  sorted (x :: l) = true -> sorted l = true.
Proof.
  destruct x as [d t], l as [|[d' t'] r]; [reflexivity|].
  cbn [sorted]. intros H. apply andb_true_iff in H. apply H.
Qed.

Lemma insert_sorted (due : N) (t : task) (l : list (N * task)) :
  sorted l = true -> sorted (insert_timer due t l) = true.
Proof.
  induction l as [|[d t'] r IH]; intros H; [reflexivity|].
  cbn [insert_timer]. destruct (d <=? due) eqn:E.
  - destruct r as [|[d2 t2] r2].
    + cbn [insert_timer sorted]. now rewrite E.
    + pose proof (IH (sorted_tail _ _ H)) as IH'.
      cbn [insert_timer] in *. cbn [sorted] in H.
      apply andb_true_iff in H. destruct H as [H1 H2].
      destruct (d2 <=? due) eqn:E2.
      * change (((d <=? d2) && sorted ((d2, t2) :: insert_timer due t r2))
                = true).
        now rewrite H1, IH'.
      * change (((d <=? due) && sorted ((due, t) :: (d2, t2) :: r2)) = true).
        now rewrite E, IH'.
  - change (((due <=? d) && sorted ((d, t') :: r)) = true).
    rewrite H, andb_true_r. apply N.leb_le. apply N.leb_gt in E. lia.
Qed.

Lemma insert_In (due : N) (t : task) (l : list (N * task)) (x : N * task) :
  In x (insert_timer due t l) <-> x = (due, t) \/ In x l.
Proof.
  induction l as [|[d t'] r IH]; cbn [insert_timer].
  - simpl. intuition congruence.
  - destruct (d <=? due); simpl in *; rewrite ?IH; intuition congruence.
Qed.

Lemma abort_controllers (c : nat) (w : world) :
  List.map controller (fetches (abort c w)) = List.map controller (fetches w).
Proof.
  setters. rewrite map_map. apply map_ext. intros a.
  now destruct (Nat.eqb (controller a) c).
Qed.

Lemma older_weaken (n m : nat) (l : list nat) :
  (n <= m)%nat -> Forall (fun c => (c < n)%nat) l ->
  Forall (fun c => (c < m)%nat) l.
Proof.
  intros Hnm H. eapply Forall_impl; [|exact H]. cbn. intros c Hc. lia.
Qed.

(** [wf] with the list of controllers spelled out. *)
Lemma wf_controllers (w : world) :
  wf w <->
  Forall (fun c => (c < fresh w)%nat) (List.map controller (fetches w))
  /\ sorted (timers w) = true.
Proof. unfold wf. now rewrite Forall_map. Qed.

(** What [animateText] leaves alone: everything but the calls to the
    engine. *)
Lemma animateText_frame (r : component) (w : world) :
  ui (animateText r w) = ui w
  /\ fetches (animateText r w) = fetches w
  /\ fresh (animateText r w) = fresh w
  /\ timers (animateText r w) = timers w
  /\ now (animateText r w) = now w.
Proof.
  unfold animateText.
  destruct (negb (isClient r) || negb (textRef w)
            || JsString.falsy (translatedText r)); [repeat split|].
  destruct (List.length (children (ui w)) =? 0)%nat; setters; repeat split.
Qed.

(** What [handleTranslate] leaves alone: the [copied] flag, the timers and
    the clock. *)
Lemma handleTranslate_frame (r : component) (forceTranslate : bool)
    (w : world) :
  copied (ui (handleTranslate r forceTranslate w)) = copied (ui w)
  /\ timers (handleTranslate r forceTranslate w) = timers w
  /\ now (handleTranslate r forceTranslate w) = now w.
Proof.
  unfold handleTranslate.
  destruct (JsString.falsy (JsString.trim (inputText r))
            || loading r && negb forceTranslate); [repeat split|].
  destruct (find_level (selectedLevel r)), (abortControllerRef w);
    setters; repeat split.
Qed.

(** The same for the completion of an attempt. *)
Lemma resume_frame (a : attempt) (o : outcome) (w : world) :
  copied (ui (handleTranslate_resume a o w)) = copied (ui w)
  /\ timers (handleTranslate_resume a o w) = timers w
  /\ now (handleTranslate_resume a o w) = now w
  /\ fetches (handleTranslate_resume a o w) = fetches w
  /\ fresh (handleTranslate_resume a o w) = fresh w
  /\ gsap_calls (handleTranslate_resume a o w) = gsap_calls w.
Proof.
  unfold handleTranslate_resume.
  destruct (try_block a o) as [[|m]|t]; [| |destruct (isClient (closure a))];
    setters; repeat split.
Qed.

Lemma handleTranslate_wf (r : component) (forceTranslate : bool) (w : world) :
  wf w -> wf (handleTranslate r forceTranslate w).
Proof.
  intros Hwf. apply wf_controllers in Hwf. destruct Hwf as [Hc Hs].
  apply wf_controllers.
  split; [|now rewrite (proj1 (proj2 (handleTranslate_frame _ _ _)))].
  unfold handleTranslate.
  destruct (JsString.falsy (JsString.trim (inputText r))
            || loading r && negb forceTranslate); [exact Hc|].
  set (w1 := match abortControllerRef w with
             | Some c => abort c w
             | None => w
             end).
  assert (H1 : List.map controller (fetches w1)
               = List.map controller (fetches w)
               /\ fresh w1 = fresh w).
  { subst w1. destruct (abortControllerRef w) as [c|];
      [split; [apply abort_controllers|reflexivity] | split; reflexivity]. }
  destruct H1 as [Hmap Hfresh].
  destruct (find_level (selectedLevel r)); setters.
  - rewrite map_app, Hmap, Hfresh. apply Forall_app. split.
    + apply (older_weaken (fresh w)); [lia|exact Hc].
    + constructor; [cbn; lia|constructor].
  - rewrite Hmap, Hfresh. apply (older_weaken (fresh w)); [lia|exact Hc].
Qed.

Lemma fire_spec (l : list (N * task)) (w : world) :
  sorted l = true ->
  sorted (timers (fire l (set_timers l w))) = true
  /\ fetches (fire l (set_timers l w)) = fetches w
  /\ fresh (fire l (set_timers l w)) = fresh w
  /\ now (fire l (set_timers l w)) = now w.
Proof.
  revert w. induction l as [|[d t] r IH]; intros w Hs.
  - cbn [fire]. setters. repeat split.
  - cbn [fire]. change (now (set_timers ((d, t) :: r) w)) with (now w).
    destruct (d <=? now w).
    + assert (E : run_task t (set_timers r (set_timers ((d, t) :: r) w))
                  = set_timers r (run_task t w)).
      { destruct t as [c|]; [|reflexivity]. cbn [run_task].
        unfold animateText. setters.
        destruct (negb (isClient c) || negb (textRef w)
                  || JsString.falsy (translatedText c)); [reflexivity|].
        now destruct (List.length (children (ui w)) =? 0)%nat. }
      rewrite E.
      destruct (IH (run_task t w) (sorted_tail _ _ Hs)) as (A & B & C & D).
      rewrite A, B, C, D. split; [reflexivity|].
      destruct t as [c|]; cbn [run_task];
        [destruct (animateText_frame c w) as (_ & F & G & _ & H);
         now rewrite F, G, H | setters; repeat split].
    + setters. repeat split. exact Hs.
Qed.

Lemma run_frames_now (l : list component) (w : world) :
  now (fold_left (fun w r => setTimeout (AnimateText r) 100 w) l w) = now w.
Proof.
  revert w. induction l as [|r l IH]; intros w; [reflexivity|].
  cbn [fold_left]. now rewrite IH.
Qed.

Lemma run_frames_wf (w : world) : wf w -> wf (run_frames w).
Proof.
  unfold run_frames.
  assert (H : forall l v, wf v ->
            wf (fold_left (fun w r => setTimeout (AnimateText r) 100 w) l v)).
  { induction l as [|r l IH]; intros v Hv; [exact Hv|].
    cbn [fold_left]. apply IH. destruct Hv as [Hc Hs].
    split; setters; [exact Hc | now apply insert_sorted]. }
  intros Hw. apply H. exact Hw.
Qed.

(** Every event keeps a well-formed world well-formed. *)
Lemma step_wf (e : event) (w : world) : wf w -> wf (step e w).
Proof.
  intros Hw. pose proof Hw as [Hc Hs].
  destruct e; cbn [step].
  - exact Hw.
  - unfold unmount. apply wf_controllers.
    destruct (abortControllerRef w) as [c|]; setters;
      [|now apply wf_controllers].
    split; [|exact Hs].
    pose proof (abort_controllers c w) as E. setters. rewrite E.
    now apply wf_controllers.
  - exact Hw.
  - now apply handleTranslate_wf.
  - unfold handleLevelSelect.
    destruct (negb (JsString.falsy (JsString.trim (inputText (ui w)))));
      [apply handleTranslate_wf|]; exact Hw.
  - exact Hw.
  - unfold handleCopy.
    destruct (negb (isClient (ui w)) || JsString.falsy (translatedText (ui w)));
      [exact Hw|].
    split; setters; [|exact Hs].
    eapply Forall_impl; [|exact Hc]. cbn. intros a Ha. lia.
  - destruct (animateText_frame (ui w) w) as (_ & F & G & T & _).
    split; [now rewrite F, G | now rewrite T].
  - destruct (find_attempt c (fetches w)) as [a|]; [|exact Hw].
    destruct (resume_frame a o
                (set_fetches (remove_attempt c (fetches w)) w))
      as (_ & T & _ & F & G & _).
    split; [rewrite F, G | rewrite T; exact Hs].
    setters. unfold remove_attempt. apply Forall_forall. intros x Hx.
    apply filter_In in Hx. rewrite Forall_forall in Hc. now apply Hc.
  - destruct (existsb (fun p => Nat.eqb (fst p) k) (clipboard w)); [|exact Hw].
    destruct resolved; unfold handleCopy_resume; split; setters;
      try exact Hc; try exact Hs.
    now apply insert_sorted.
  - now apply run_frames_wf.
  - change (timers (set_now (now w + dt) w)) with (timers w).
    replace (set_now (now w + dt) w)
      with (set_timers (timers w) (set_now (now w + dt) w))
      by (now destruct w).
    destruct (fire_spec (timers w) (set_now (now w + dt) w) Hs)
      as (A & B & C & _).
    split; [rewrite B, C; exact Hc | exact A].
Qed.

Lemma run_wf (es : list event) (w : world) : wf w -> wf (run es w).
Proof.
  revert w. induction es as [|e es IH]; intros w Hw; [exact Hw|].
  cbn [run fold_left]. apply IH. now apply step_wf.
Qed.

Lemma reachable_wf (w : world) : reachable w -> wf w.
Proof.
  intros [es ->]. apply run_wf. split; [constructor|reflexivity].
Qed.

(** [isClient], once true, stays true: no handler sets it back. *)
Lemma handleTranslate_isClient (r : component) (forceTranslate : bool)
    (w : world) :
  isClient (ui (handleTranslate r forceTranslate w)) = isClient (ui w).
Proof.
  unfold handleTranslate.
  destruct (JsString.falsy (JsString.trim (inputText r))
            || loading r && negb forceTranslate); [reflexivity|].
  destruct (find_level (selectedLevel r)), (abortControllerRef w);
    setters; reflexivity.
Qed.

Lemma resume_isClient (a : attempt) (o : outcome) (w : world) :
  isClient (ui (handleTranslate_resume a o w)) = isClient (ui w).
Proof.
  unfold handleTranslate_resume.
  destruct (try_block a o) as [[|m]|t]; [| |destruct (isClient (closure a))];
    setters; reflexivity.
Qed.

Lemma run_frames_ui (l : list component) (w : world) :
  ui (fold_left (fun w r => setTimeout (AnimateText r) 100 w) l w) = ui w.
Proof.
  revert w. induction l as [|r l IH]; intros w; [reflexivity|].
  cbn [fold_left]. now rewrite IH.
Qed.

Lemma fire_isClient (l : list (N * task)) (w : world) :
  isClient (ui (fire l w)) = isClient (ui w).
Proof.
  revert w. induction l as [|[d t] r IH]; intros w; cbn [fire];
    [reflexivity|].
  destruct (d <=? now w); [|reflexivity].
  rewrite IH. destruct t as [c|]; cbn [run_task]; [|reflexivity].
  now rewrite (proj1 (animateText_frame c _)).
Qed.

Lemma step_isClient (e : event) (w : world) :
  isClient (ui w) = true -> isClient (ui (step e w)) = true.
Proof.
  intros H. destruct e; cbn [step].
  - reflexivity.
  - unfold unmount. now destruct (abortControllerRef w).
  - exact H.
  - now rewrite handleTranslate_isClient.
  - unfold handleLevelSelect.
    destruct (negb (JsString.falsy (JsString.trim (inputText (ui w)))));
      [|exact H].
    now rewrite handleTranslate_isClient.
  - exact H.
  - unfold handleCopy.
    now destruct (negb (isClient (ui w))
                  || JsString.falsy (translatedText (ui w))).
  - now rewrite (proj1 (animateText_frame _ _)).
  - destruct (find_attempt c (fetches w)); [|exact H].
    now rewrite resume_isClient.
  - destruct (existsb (fun p => Nat.eqb (fst p) k) (clipboard w)); [|exact H].
    now destruct resolved.
  - unfold run_frames. now rewrite run_frames_ui.
  - now rewrite fire_isClient.
Qed.


(* ================================================================== *)
(** ** The start of an attempt *)

Lemma find_attempt_last (n : nat) (l : list attempt) (a : attempt) :
  Forall (fun c => (c < n)%nat) (List.map controller l) ->
  controller a = n ->
  find_attempt n (l ++ [a]) = Some a.
Proof.
  intros Hl Ha. unfold find_attempt.
  induction l as [|x l IH]; cbn [app find].
  - rewrite Ha, Nat.eqb_refl. reflexivity.
  - inversion Hl as [|? ? Hx Hl']; subst.
    destruct (Nat.eqb_spec (controller x) (controller a)) as [E|_]; [lia|].
    now apply IH.
Qed.

(** When the guard lets it through and the selected level is in the
    catalog, [handleTranslate] sets [loading], clears [error], stores a new
    controller in the ref and issues the request, bound to that controller,
    with the text and the level's prompt of the render it is called from. *)
Lemma handleTranslate_starts (w : world) (forceTranslate : bool)
    (l : SlangLevel) :
  wf w ->
  JsString.trim (inputText (ui w)) <> [] ->
  loading (ui w) = false \/ forceTranslate = true ->
  find_level (selectedLevel (ui w)) = Some l ->
  let a := {| controller := fresh w; aborted := false;
              body := {| text := inputText (ui w); level := prompt l |};
              closure := ui w |} in
  let w' := step (Translate forceTranslate) w in
  in_flight a w'
  /\ loading (ui w') = true
  /\ error (ui w') = []
  /\ translatedText (ui w') = translatedText (ui w)
  /\ abortControllerRef w' = Some (fresh w).
Proof.
  intros Hwf Hin Hgo Hl a w'. subst w'. cbn [step]. unfold handleTranslate.
  apply falsy_cons in Hin. rewrite Hin.
  replace (loading (ui w) && negb forceTranslate) with false
    by (destruct Hgo as [-> | ->]; [reflexivity|now rewrite andb_false_r]).
  cbn [orb]. rewrite Hl.
  apply wf_controllers in Hwf. destruct Hwf as [Hc _].
  set (w1 := match abortControllerRef w with
             | Some c => abort c w
             | None => w
             end).
  assert (H1 : List.map controller (fetches w1)
               = List.map controller (fetches w)
               /\ fresh w1 = fresh w /\ ui w1 = ui w).
  { subst w1. destruct (abortControllerRef w) as [c|];
      [split; [apply abort_controllers|split; reflexivity]
      | repeat split]. }
  destruct H1 as (Hmap & Hfresh & Hui).
  setters. rewrite Hfresh, Hui. repeat split.
  subst a. cbn [controller]. setters.
  apply find_attempt_last; [now rewrite Hmap|reflexivity].
Qed.

(* ================================================================== *)
(** ** Completions that succeed *)

(** The statement [success_leaves_no_error] fails: in the scenario
    [copy_rejected_in_flight] the second attempt is in flight and not
    cancelled, its translation arrives, and the page shows the translation
    together with the error of the refused copy. *)
Lemma success_leaves_no_error_fails : ~ success_leaves_no_error.
Proof.
  intros H.
  pose (w := run copy_rejected_in_flight initial_world).
  pose (a := {| controller := 1; aborted := false;
                body := {| text := js "hello world";
                           level := js "Use moderate internet slang and abbreviations" |};
                closure := ui (run first_translation initial_world) |}).
  assert (Hr : reachable w)
    by (exists (List.tl copy_rejected_in_flight); reflexivity).
  assert (Ha : in_flight a w) by (split; vm_compute; reflexivity).
  assert (Ht : js "no cap hello world" <> []) by (vm_compute; discriminate).
  destruct (H w a 200 (js "no cap hello world") Hr Ha eq_refl Ht)
    as (_ & _ & He).
  vm_compute in He. discriminate He.
Qed.

(** What a completion that succeeds does, in any world: it writes the
    result, lowers [loading], closes the filter panel, leaves [error] alone,
    calls no engine and sets no timer; when [isClient] was true in the
    render of the attempt it leaves one animation-frame callback, and the
    frame sets a timer of 100 ms. *)
Lemma successful_completion_step (w : world) (a : attempt) (status : N)
    (t : jsstring) :
  in_flight a w -> ok status = true -> t <> [] ->
  let w' := step (FetchSettled (controller a)
                    (Response status (Data (Some t)))) w in
  translatedText (ui w') = t
  /\ loading (ui w') = false
  /\ isFilterOpen (ui w') = false
  /\ error (ui w') = error (ui w)
  /\ gsap_calls w' = gsap_calls w
  /\ timers w' = timers w
  /\ frames w'
     = frames w ++ (if isClient (closure a) then [closure a] else [])
  /\ (isClient (closure a) = true ->
      In (now w' + 100, AnimateText (closure a))
         (timers (step Frame w'))).
Proof.
  intros [Hfind Hlive] Hok Ht w'. subst w'.
  rewrite (step_FetchSettled _ _ _ Hfind).
  unfold handleTranslate_resume, try_block.
  rewrite Hlive, Hok. cbn [negb]. apply falsy_cons in Ht. rewrite Ht.
  destruct (isClient (closure a)) eqn:Hc; setters;
    repeat split; try (now rewrite app_nil_r); try discriminate.
  intros _. cbn [step]. unfold run_frames. setters.
  rewrite fold_left_app. cbn [fold_left]. setters.
  rewrite run_frames_now. setters. apply insert_In. now left.
Qed.

(* ================================================================== *)
(** ** A result or an error *)

(** The statement [result_or_error_not_both] fails: in the scenario
    [copy_rejected_late] the second attempt (controller 2) is in flight and
    not cancelled when the clipboard refuses the copy; its translation then
    arrives, and the page shows both the translation and the error. *)
Lemma result_or_error_not_both_fails : ~ result_or_error_not_both.
Proof.
  intros H.
  pose (w := run copy_rejected_late initial_world).
  pose (a := {| controller := 2; aborted := false;
                body := {| text := js "hello world";
                           level := js "Use moderate internet slang and abbreviations" |};
                closure := ui (run first_translation initial_world) |}).
  assert (Hr : reachable w)
    by (exists (List.tl copy_rejected_late); reflexivity).
  assert (Ha : in_flight a w) by (split; vm_compute; reflexivity).
  destruct (H w a (translation "no cap hello world") Hr Ha) as [He | He];
    vm_compute in He; discriminate He.
Qed.

(** C10, as amended.  After a completion that was not cancelled, either it
    failed, and [translatedText] is empty and [error] is not, or it
    succeeded, and [translatedText] is not empty and [error] is what it was
    when the fetch settled.  So a result and an error are never both set
    when [error] was empty at that moment, as it is when nothing but the
    attempt wrote it since the attempt started. *)
Theorem completion_result_or_error (w : world) (a : attempt) (o : outcome) :
  in_flight a w ->
  let w' := step (FetchSettled (controller a) o) w in
  ((translatedText (ui w') = [] /\ error (ui w') <> [])
   \/ (translatedText (ui w') <> [] /\ error (ui w') = error (ui w)))
  /\ (error (ui w) = [] -> translatedText (ui w') = [] \/ error (ui w') = []).
Proof.
  intros [Hfind Hlive] w'. subst w'.
  rewrite (step_FetchSettled _ _ _ Hfind).
  assert (D : (translatedText (ui (handleTranslate_resume a o
                 (set_fetches (remove_attempt (controller a) (fetches w)) w)))
               = []
               /\ error (ui (handleTranslate_resume a o
                    (set_fetches (remove_attempt (controller a) (fetches w))
                       w))) <> [])
              \/ (translatedText (ui (handleTranslate_resume a o
                    (set_fetches (remove_attempt (controller a) (fetches w))
                       w))) <> []
                  /\ error (ui (handleTranslate_resume a o
                       (set_fetches (remove_attempt (controller a) (fetches w))
                          w))) = error (ui w))).
  { unfold handleTranslate_resume.
    destruct (try_block_not_aborted a o Hlive) as [[m Hm] | [t [Hs Ht]]].
    - rewrite Hm. left.
      destruct (catch_block_Error m
                  (set_fetches (remove_attempt (controller a) (fetches w)) w))
        as [He Hn].
      split; [exact Hn | exact He].
    - rewrite Hs. right.
      destruct (isClient (closure a)); setters; split; auto. }
  split; [exact D|].
  intros He. destruct D as [[D1 _] | [_ D2]]; [now left|right; congruence].
Qed.

Lemma completion_result_or_error_witness :
  let w := run [Mount; InputChange (js "hello world"); Translate true]
             initial_world in
  let a := {| controller := 0; aborted := false;
              body := {| text := js "hello world";
                         level := js "Use moderate internet slang and abbreviations" |};
              closure := ui (run [Mount; InputChange (js "hello world")]
                               initial_world) |} in
  let w' := step (FetchSettled 0 (Response 200 (Data (Some [])))) w in
  in_flight a w
  /\ (translatedText (ui w') = [] \/ error (ui w') = []).
Proof.
  intros w a w'.
  assert (H : in_flight a w) by (split; reflexivity).
  split; [exact H|].
  exact (proj2 (completion_result_or_error w a
                  (Response 200 (Data (Some []))) H) eq_refl).
Defined.

(* ================================================================== *)
(** ** Timers and the clock *)













(* ================================================================== *)
(** ** Copying the result *)


(* ================================================================== *)
(** ** The animator *)

(** The statement [animator_always_plays] fails: in the scenario
    [first_animation_due] the lines of the first translation are rendered
    and the timer that runs the animator is set, but the [animateText] it
    runs is the one of the render in which the translation was asked for,
    whose [translatedText] is empty: it returns at its guard and calls
    nothing. *)
Lemma animator_always_plays_fails : ~ animator_always_plays.
Proof.
  intros H.
  pose (w := run first_animation_due initial_world).
  pose (r := ui (run [Mount; InputChange (js "hello world")] initial_world)).
  assert (Hr : reachable w)
    by (exists (List.tl first_animation_due); reflexivity).
  assert (Hc : children (ui w) <> []) by (vm_compute; discriminate).
  assert (Ht : In (100, AnimateText r) (timers w))
    by (vm_compute; left; reflexivity).
  assert (Hf : textRef w = true) by (vm_compute; reflexivity).
  assert (Hd : r = ui w \/ exists due, In (due, AnimateText r) (timers w))
    by (right; exists 100; exact Ht).
  specialize (H w r Hr Hf Hc Hd).
  vm_compute in H. discriminate H.
Qed.

(** Where the animator plays: [animateText] of a render in which [isClient]
    is true and [translatedText] is not empty, with [textRef] attached and
    elements rendered, makes one call to the engine, on these elements, from
    the offset and transparent state, and changes nothing else,
    [translatedText] included; called again it makes the same call again.
    It does nothing when no element is rendered. *)
Lemma animateText_plays (r : component) (w : world) :
  isClient r = true -> textRef w = true -> translatedText r <> [] ->
  children (ui w) <> [] ->
  let c := animation (children (ui w)) in
  animateText r w = set_gsap_calls (gsap_calls w ++ [c]) w
  /\ animateText r (animateText r w)
     = set_gsap_calls (gsap_calls w ++ [c; c]) w
  /\ (forall r' w', children (ui w') = [] -> animateText r' w' = w').
Proof.
  intros Hclient Href Htext Hels c.
  assert (Hlen : (List.length (children (ui w)) =? 0)%nat = false).
  { apply Nat.eqb_neq. destruct (children (ui w)); [congruence|discriminate]. }
  assert (E : forall v, textRef v = true -> ui v = ui w ->
                animateText r v = set_gsap_calls (gsap_calls v ++ [c]) v).
  { intros v Hv Hu. unfold animateText.
    apply falsy_cons in Htext. rewrite Hclient, Hv, Htext, Hu, Hlen.
    reflexivity. }
  split; [exact (E w Href eq_refl)|]. split.
  - rewrite (E w Href eq_refl). rewrite E; [|exact Href|reflexivity].
    setters. now rewrite <- app_assoc.
  - intros r' w' H. unfold animateText. rewrite H.
    now destruct (negb (isClient r') || negb (textRef w')
                  || JsString.falsy (translatedText r')).
Qed.

(** C8.  The component at the input [first_animation_due] followed by the
    100 ms of the timer.  The line of the first translation is rendered
    under [textRef] and the timer set by the translation is due; the
    [animateText] it runs is the one of the render in which the translation
    was asked for, whose [translatedText] is empty: the timer fires, leaves
    the queue, and no call reaches the engine, so the rendered element is
    neither reset nor animated.  The [animateText] of the current render,
    called from "play again" on the same element, does make the call. *)
Theorem first_translation_not_animated :
  let w := run first_animation_due initial_world in
  let w' := step (Advance 100) w in
  children (ui w) = [js "omg hello world fr fr"]
  /\ timers w
     = [(100, AnimateText (ui (run [Mount; InputChange (js "hello world")]
                                  initial_world)))]
  /\ translatedText (ui (run [Mount; InputChange (js "hello world")]
                            initial_world)) = []
  /\ timers w' = []
  /\ children (ui w') = [js "omg hello world fr fr"]
  /\ gsap_calls w' = []
  /\ gsap_calls (step PlayAgain w')
     = [animation [js "omg hello world fr fr"]].
Proof. vm_compute. repeat split. Qed.

(* ================================================================== *)
(** ** What the other events leave alone *)

Lemma animateText_shape (r : component) (w : world) :
  exists gs, animateText r w = set_gsap_calls gs w.
Proof.
  unfold animateText.
  destruct (negb (isClient r) || negb (textRef w)
            || JsString.falsy (translatedText r));
    [exists (gsap_calls w); now destruct w|].
  destruct (List.length (children (ui w)) =? 0)%nat;
    [exists (gsap_calls w); now destruct w|].
  eexists. reflexivity.
Qed.

(** The timers that fire write the [copied] flag and call the engine, and
    nothing else. *)
Lemma fire_shape (l : list (N * task)) (w : world) :
  exists b ts gs,
    fire l w = set_gsap_calls gs (set_timers ts (setCopied b w)).
Proof.
  revert w. induction l as [|[d t] r IH]; intros w; cbn [fire].
  - exists (copied (ui w)), (timers w), (gsap_calls w).
    destruct w as [u ? ? ? ? ? ? ? ? ?]. now destruct u.
  - destruct (d <=? now w).
    + destruct t as [c|]; cbn [run_task].
      * destruct (animateText_shape c (set_timers r w)) as [gs' E].
        rewrite E.
        destruct (IH (set_gsap_calls gs' (set_timers r w)))
          as (b & ts & gs & E').
        rewrite E'. exists b, ts, gs. reflexivity.
      * destruct (IH (setCopied false (set_timers r w)))
          as (b & ts & gs & E').
        rewrite E'. exists b, ts, gs. reflexivity.
    + exists (copied (ui w)), (timers w), (gsap_calls w).
      destruct w as [u ? ? ? ? ? ? ? ? ?]. now destruct u.
Qed.

(** The animation frame moves its callbacks to the timers, and nothing
    else. *)
Lemma run_frames_shape (w : world) :
  exists ts, run_frames w = set_timers ts (set_frames [] w).
Proof.
  unfold run_frames.
  assert (H : forall l v, exists ts,
            fold_left (fun w r => setTimeout (AnimateText r) 100 w) l v
            = set_timers ts v).
  { induction l as [|r l IH]; intros v; cbn [fold_left].
    - exists (timers v). now destruct v.
    - destruct (IH (setTimeout (AnimateText r) 100 v)) as [ts E].
      rewrite E. eexists. reflexivity. }
  apply H.
Qed.

(** What [handleTranslate] never writes. *)
Lemma handleTranslate_keeps (r : component) (forceTranslate : bool)
    (w : world) :
  let w' := handleTranslate r forceTranslate w in
  inputText (ui w') = inputText (ui w)
  /\ selectedLevel (ui w') = selectedLevel (ui w)
  /\ isFilterOpen (ui w') = isFilterOpen (ui w)
  /\ textRef w' = textRef w
  /\ clipboard w' = clipboard w
  /\ frames w' = frames w
  /\ gsap_calls w' = gsap_calls w.
Proof.
  unfold handleTranslate.
  destruct (JsString.falsy (JsString.trim (inputText r))
            || loading r && negb forceTranslate); [repeat split|].
  destruct (find_level (selectedLevel r)), (abortControllerRef w);
    setters; repeat split.
Qed.

(** What the completion of an attempt never writes. *)
Lemma resume_keeps (a : attempt) (o : outcome) (w : world) :
  let w' := handleTranslate_resume a o w in
  inputText (ui w') = inputText (ui w)
  /\ selectedLevel (ui w') = selectedLevel (ui w)
  /\ textRef w' = textRef w
  /\ clipboard w' = clipboard w.
Proof.
  unfold handleTranslate_resume.
  destruct (try_block a o) as [[|m]|t]; [| |destruct (isClient (closure a))];
    setters; repeat split.
Qed.

(** The events that are no business of the translation controller leave
    [loading], the ref, the fetches and the selected level alone. *)
Lemma step_passive (e : event) (w : world) :
  match e with
  | Translate _ | LevelSelect _ | FetchSettled _ _ | Unmount => True
  | _ =>
      loading (ui (step e w)) = loading (ui w)
      /\ abortControllerRef (step e w) = abortControllerRef w
      /\ fetches (step e w) = fetches w
      /\ selectedLevel (ui (step e w)) = selectedLevel (ui w)
  end.
Proof.
  destruct e; cbn [step]; try exact I.
  - repeat split.
  - repeat split.
  - repeat split.
  - unfold handleCopy.
    destruct (negb (isClient (ui w))
              || JsString.falsy (translatedText (ui w))); repeat split.
  - destruct (animateText_shape (ui w) w) as [gs E]. rewrite E.
    repeat split.
  - destruct (existsb (fun p => Nat.eqb (fst p) k) (clipboard w));
      [|repeat split].
    destruct resolved; repeat split.
  - destruct (run_frames_shape w) as [ts E]. rewrite E. repeat split.
  - destruct (fire_shape (timers (set_now (now w + dt) w))
                (set_now (now w + dt) w)) as (b & ts & gs & E).
    rewrite E. repeat split.
Qed.

(* ================================================================== *)
(** ** [loading] and the ref *)

Lemma find_attempt_controller (c : nat) (l : list attempt) (a : attempt) :
  find_attempt c l = Some a -> In a l /\ controller a = c.
Proof.
  intros H. apply find_some in H. destruct H as [Hin He].
  split; [exact Hin|]. now apply Nat.eqb_eq.
Qed.

(** [abort] raises the flag of the attempts of that controller and leaves
    the others as they are. *)
Lemma find_attempt_abort (c c' : nat) (w : world) (a : attempt) :
  find_attempt c (fetches w) = Some a ->
  find_attempt c (fetches (abort c' w))
  = Some (if Nat.eqb (controller a) c'
          then {| controller := controller a; aborted := true;
                  body := body a; closure := closure a |}
          else a).
Proof.
  setters. unfold find_attempt.
  induction (fetches w) as [|x l IH]; cbn [find map]; [discriminate|].
  assert (E : controller
                (if Nat.eqb (controller x) c'
                 then {| controller := controller x; aborted := true;
                         body := body x; closure := closure x |}
                 else x) = controller x)
    by (now destruct (Nat.eqb (controller x) c')).
  rewrite E. destruct (Nat.eqb (controller x) c).
  - intros H. now inversion H.
  - exact IH.
Qed.

Lemma find_attempt_app (c : nat) (l l' : list attempt) (a : attempt) :
  find_attempt c l = Some a -> find_attempt c (l ++ l') = Some a.
Proof.
  unfold find_attempt. induction l as [|x l IH]; cbn [find app];
    [discriminate|].
  now destruct (Nat.eqb (controller x) c).
Qed.

(** The fetches after [handleTranslate] got past its guard: those there
    were, the one of the controller in the ref aborted, and the new request
    when the selected level is in the catalog. *)
Lemma handleTranslate_fetches (r : component) (forceTranslate : bool)
    (w : world) :
  JsString.trim (inputText r) <> [] ->
  loading r = false \/ forceTranslate = true ->
  let w0 := match abortControllerRef w with
            | Some c => abort c w
            | None => w
            end in
  let w' := handleTranslate r forceTranslate w in
  fresh w' = S (fresh w)
  /\ match find_level (selectedLevel r) with
     | Some l =>
         fetches w'
         = fetches w0
           ++ [{| controller := fresh w; aborted := false;
                  body := {| text := inputText r; level := prompt l |};
                  closure := r |}]
         /\ abortControllerRef w' = Some (fresh w)
         /\ loading (ui w') = true
         /\ error (ui w') = []
         /\ translatedText (ui w') = translatedText (ui w)
     | None =>
         fetches w' = fetches w0
         /\ abortControllerRef w' = None
         /\ loading (ui w') = false
         /\ error (ui w') = js "Invalid slang level"
         /\ translatedText (ui w') = []
     end.
Proof.
  intros Hin Hgo w0 w'. subst w' w0. unfold handleTranslate.
  apply falsy_cons in Hin. rewrite Hin.
  replace (loading r && negb forceTranslate) with false
    by (destruct Hgo as [-> | ->]; [reflexivity|now rewrite andb_false_r]).
  cbn [orb].
  destruct (find_level (selectedLevel r)), (abortControllerRef w);
    setters; repeat split.
Qed.

Lemma handleTranslate_tracked (r : component) (forceTranslate : bool)
    (w : world) :
  wf w -> tracked w -> tracked (handleTranslate r forceTranslate w).
Proof.
  intros Hwf Ht.
  destruct (JsString.falsy (JsString.trim (inputText r))
            || loading r && negb forceTranslate) eqn:G.
  - unfold handleTranslate. now rewrite G.
  - apply orb_false_iff in G. destruct G as [G1 G2].
    assert (Hin : JsString.trim (inputText r) <> []) by now apply falsy_cons.
    assert (Hgo : loading r = false \/ forceTranslate = true).
    { destruct (loading r); [right|now left].
      now destruct forceTranslate. }
    destruct (handleTranslate_fetches r forceTranslate w Hin Hgo)
      as [_ H].
    unfold tracked.
    destruct (find_level (selectedLevel r)) as [l|].
    + destruct H as (Hf & Hr & Hl & _). rewrite Hr, Hf.
      split; [exact Hl|]. eexists.
      apply find_attempt_last; [|reflexivity].
      apply wf_controllers in Hwf. destruct Hwf as [Hc _].
      destruct (abortControllerRef w) as [c|];
        [now rewrite abort_controllers | exact Hc].
    + destruct H as (_ & Hr & Hl & _). now rewrite Hr.
Qed.

Lemma step_tracked (e : event) (w : world) :
  wf w -> tracked w -> tracked (step e w).
Proof.
  intros Hwf Ht. pose proof (step_passive e w) as P.
  destruct e;
    try (destruct P as (A & B & C & _); unfold tracked;
         rewrite A, B, C; exact Ht);
    clear P; cbn [step].
  - unfold unmount, tracked in *.
    destruct (abortControllerRef w) as [c|] eqn:R; setters; rewrite ?R;
      [|exact Ht].
    destruct Ht as [Hl [a Ha]]. split; [exact Hl|].
    pose proof (find_attempt_abort c c w a Ha) as H. setters.
    rewrite H. eexists. reflexivity.
  - now apply handleTranslate_tracked.
  - unfold handleLevelSelect.
    destruct (negb (JsString.falsy (JsString.trim (inputText (ui w)))));
      [apply handleTranslate_tracked|]; assumption.
  - destruct (find_attempt c (fetches w)) as [a|]; [|exact Ht].
    unfold tracked.
    destruct (resume_finally a o
                (set_fetches (remove_attempt c (fetches w)) w)) as [A B].
    now rewrite B.
Qed.

Lemma reachable_tracked (w : world) : reachable w -> tracked w.
Proof.
  intros [es ->].
  assert (H : forall l v, wf v -> tracked v -> tracked (run l v)).
  { induction l as [|e l IH]; intros v Hv Ht; [exact Ht|].
    rewrite run_cons. apply IH; [now apply step_wf|now apply step_tracked]. }
  apply H; [split; [constructor|reflexivity]|reflexivity].
Qed.

(** X3.  Wherever the component has got to, [loading] is true exactly when
    the ref holds a controller, and the controller the ref holds is the one
    of a fetch that has not settled: the page never shows "Translating..."
    with no request behind it, and once every fetch has settled [loading]
    is false. *)
Theorem loading_tracks_ref (w : world) :
  reachable w ->
  (loading (ui w) = true <-> abortControllerRef w <> None)
  /\ (forall c, abortControllerRef w = Some c ->
        exists a, In a (fetches w) /\ controller a = c)
  /\ (fetches w = [] -> loading (ui w) = false).
Proof.
  intros Hr. pose proof (reachable_tracked w Hr) as Ht. unfold tracked in Ht.
  destruct (abortControllerRef w) as [c|].
  - destruct Ht as [Hl [a Ha]].
    destruct (find_attempt_controller _ _ _ Ha) as [Hin Hc].
    split; [split; [discriminate|intros _; exact Hl]|]. split.
    + intros c' E. inversion E; subst. now exists a.
    + intros E. rewrite E in Hin. destruct Hin.
  - split; [split; [congruence|intros H; now elim H]|].
    split; [discriminate|intros _; exact Ht].
Qed.

Lemma loading_tracks_ref_witness :
  let w := run [Mount; InputChange (js "hello world"); Translate true]
             initial_world in
  reachable w
  /\ (loading (ui w) = true <-> abortControllerRef w <> None).
Proof.
  intros w.
  assert (Hr : reachable w)
    by (exists [InputChange (js "hello world"); Translate true];
        reflexivity).
  split; [exact Hr|]. exact (proj1 (loading_tracks_ref w Hr)).
Defined.

(** X12.  When the Translate button is enabled, its click cancels nothing:
    the fetches in flight keep their flags, and the new request is added to
    them (none is, when the selected level is not in the catalog). *)
Theorem translate_button_cancels_nothing (w : world) :
  reachable w -> translate_disabled (ui w) = false ->
  fetches (step (Translate true) w)
  = fetches w
    ++ match find_level (selectedLevel (ui w)) with
       | Some l =>
           [{| controller := fresh w; aborted := false;
               body := {| text := inputText (ui w); level := prompt l |};
               closure := ui w |}]
       | None => []
       end.
Proof.
  intros Hr Hd. unfold translate_disabled in Hd.
  apply orb_false_iff in Hd. destruct Hd as [Hl Hin].
  apply falsy_cons in Hin.
  pose proof (reachable_tracked w Hr) as Ht. unfold tracked in Ht.
  destruct (handleTranslate_fetches (ui w) true w Hin (or_introl Hl))
    as [_ H].
  cbn [step].
  destruct (abortControllerRef w) as [c|]; [destruct Ht; congruence|].
  destruct (find_level (selectedLevel (ui w))) as [l|].
  - now destruct H as [H _].
  - destruct H as [H _]. now rewrite app_nil_r.
Qed.

Lemma translate_button_cancels_nothing_witness :
  let w := run third_translate initial_world in
  let w1 := step (FetchSettled 1 (translation "omg hello world fr fr")) w in
  reachable w1 /\ translate_disabled (ui w1) = false
  /\ List.map (fun a => (controller a, aborted a))
       (fetches (step (Translate true) w1))
     = [(2%nat, false); (3%nat, false)].
Proof.
  intros w w1.
  assert (Hr : reachable w1)
    by (exists (List.tl third_translate
                ++ [FetchSettled 1 (translation "omg hello world fr fr")]);
        vm_compute; reflexivity).
  assert (Hd : translate_disabled (ui w1) = false)
    by (vm_compute; reflexivity).
  split; [exact Hr|]. split; [exact Hd|].
  rewrite (translate_button_cancels_nothing w1 Hr Hd).
  vm_compute. reflexivity.
Defined.

(** An attempt whose flag is up settles without a word: neither the result
    nor the error is written. *)
Lemma aborted_settles_quietly (w : world) (c : nat) (a : attempt)
    (o : outcome) :
  find_attempt c (fetches w) = Some a -> aborted a = true ->
  translatedText (ui (step (FetchSettled c o) w)) = translatedText (ui w)
  /\ error (ui (step (FetchSettled c o) w)) = error (ui w).
Proof.
  intros Hf Ha.
  destruct (find_attempt_controller _ _ _ Hf) as [_ Hc]. subst c.
  destruct (cancelled_completion w a o Hf Ha) as (A & B & _).
  split; [exact B|exact A].
Qed.

(** X4.  A forced [handleTranslate] that gets past its guard aborts the
    request the ref holds: that request stays among the fetches with its
    flag up, and when it settles, whatever the network answered, it writes
    neither [translatedText] nor [error]. *)
Theorem translate_supersedes (w : world) (c : nat) :
  reachable w -> abortControllerRef w = Some c ->
  JsString.trim (inputText (ui w)) <> [] ->
  let w' := step (Translate true) w in
  (exists a, find_attempt c (fetches w') = Some a /\ aborted a = true)
  /\ (forall o,
        translatedText (ui (step (FetchSettled c o) w'))
        = translatedText (ui w')
        /\ error (ui (step (FetchSettled c o) w')) = error (ui w')).
Proof.
  intros Hr Hc Hin w'.
  pose proof (reachable_tracked w Hr) as Ht. unfold tracked in Ht.
  rewrite Hc in Ht. destruct Ht as [_ [a0 Ha0]].
  destruct (find_attempt_controller _ _ _ Ha0) as [_ Hc0].
  pose proof (find_attempt_abort c c w a0 Ha0) as Hab.
  rewrite Hc0, Nat.eqb_refl in Hab.
  destruct (handleTranslate_fetches (ui w) true w Hin (or_intror eq_refl))
    as [_ H].
  rewrite Hc in H.
  assert (Hf : find_attempt c (fetches w')
               = Some {| controller := c; aborted := true;
                         body := body a0; closure := closure a0 |}).
  { subst w'. cbn [step].
    destruct (find_level (selectedLevel (ui w))) as [l|];
      destruct H as [H _]; rewrite H;
      [now apply find_attempt_app | exact Hab]. }
  split; [eexists; split; [exact Hf|reflexivity]|].
  intros o. exact (aborted_settles_quietly w' c _ o Hf eq_refl).
Qed.

Lemma translate_supersedes_witness :
  let w := run [Mount; InputChange (js "hello world"); Translate true]
             initial_world in
  let w' := step (Translate true) w in
  reachable w /\ abortControllerRef w = Some 0%nat
  /\ JsString.trim (inputText (ui w)) <> []
  /\ translatedText
       (ui (step (FetchSettled 0 (translation "omg hello world fr fr")) w'))
     = translatedText (ui w').
Proof.
  intros w w'.
  assert (Hr : reachable w)
    by (exists [InputChange (js "hello world"); Translate true];
        reflexivity).
  assert (Hc : abortControllerRef w = Some 0%nat)
    by (vm_compute; reflexivity).
  assert (Hin : JsString.trim (inputText (ui w)) <> [])
    by (vm_compute; discriminate).
  split; [exact Hr|]. split; [exact Hc|]. split; [exact Hin|].
  exact (proj1 (proj2 (translate_supersedes w 0%nat Hr Hc Hin)
                  (translation "omg hello world fr fr"))).
Defined.

(** X11.  The cleanup of the mount effect aborts the request the ref holds:
    it stays among the fetches with its flag up, and when it settles it
    writes neither [translatedText] nor [error]. *)
Theorem unmount_aborts (w : world) (c : nat) :
  reachable w -> abortControllerRef w = Some c ->
  let w' := step Unmount w in
  (exists a, find_attempt c (fetches w') = Some a /\ aborted a = true)
  /\ (forall o,
        translatedText (ui (step (FetchSettled c o) w'))
        = translatedText (ui w')
        /\ error (ui (step (FetchSettled c o) w')) = error (ui w')).
Proof.
  intros Hr Hc w'.
  pose proof (reachable_tracked w Hr) as Ht. unfold tracked in Ht.
  rewrite Hc in Ht. destruct Ht as [_ [a0 Ha0]].
  destruct (find_attempt_controller _ _ _ Ha0) as [_ Hc0].
  pose proof (find_attempt_abort c c w a0 Ha0) as Hab.
  rewrite Hc0, Nat.eqb_refl in Hab.
  assert (Hf : find_attempt c (fetches w')
               = Some {| controller := c; aborted := true;
                         body := body a0; closure := closure a0 |}).
  { subst w'. cbn [step]. unfold unmount. rewrite Hc. exact Hab. }
  split; [eexists; split; [exact Hf|reflexivity]|].
  intros o. exact (aborted_settles_quietly w' c _ o Hf eq_refl).
Qed.

Lemma unmount_aborts_witness :
  let w := run [Mount; InputChange (js "hello world"); Translate true]
             initial_world in
  let w' := step Unmount w in
  reachable w /\ abortControllerRef w = Some 0%nat
  /\ error (ui (step (FetchSettled 0 (Response 500 (Data None))) w'))
     = error (ui w').
Proof.
  intros w w'.
  assert (Hr : reachable w)
    by (exists [InputChange (js "hello world"); Translate true];
        reflexivity).
  assert (Hc : abortControllerRef w = Some 0%nat)
    by (vm_compute; reflexivity).
  split; [exact Hr|]. split; [exact Hc|].
  exact (proj2 (proj2 (unmount_aborts w 0%nat Hr Hc)
                  (Response 500 (Data None)))).
Defined.

(* ================================================================== *)
(** ** The selected level and the requests *)

Lemma eqb_eq (a b : jsstring) : JsString.eqb a b = true -> a = b.
Proof.
  revert b. induction a as [|x a IH]; intros [|y b] H; cbn in H;
    try discriminate H; [reflexivity|].
  apply andb_true_iff in H. destruct H as [H1 H2].
  apply N.eqb_eq in H1. subst. f_equal. now apply IH.
Qed.

Lemma find_level_Some (s : jsstring) (l : SlangLevel) :
  find_level s = Some l -> In l slangLevels /\ id l = s.
Proof.
  intros H. apply find_some in H. destruct H as [Hin He].
  split; [exact Hin|now apply eqb_eq].
Qed.

Lemma catalog_find_level (s : jsstring) :
  List.existsb (fun l => JsString.eqb (id l) s) slangLevels = true ->
  find_level s <> None.
Proof.
  unfold find_level. induction slangLevels as [|x l IH]; cbn [existsb find];
    [discriminate|].
  destruct (JsString.eqb (id x) s); [discriminate|exact IH].
Qed.

Lemma step_selected (e : event) (w : world) :
  catalog_select e = true ->
  find_level (selectedLevel (ui w)) <> None ->
  find_level (selectedLevel (ui (step e w))) <> None.
Proof.
  intros He Hw. pose proof (step_passive e w) as P.
  destruct e; try (destruct P as (_ & _ & _ & A); now rewrite A);
    clear P; cbn [step].
  - unfold unmount. now destruct (abortControllerRef w).
  - now rewrite (proj1 (proj2 (handleTranslate_keeps _ _ _))).
  - cbn [catalog_select] in He. apply catalog_find_level in He.
    unfold handleLevelSelect.
    destruct (negb (JsString.falsy (JsString.trim (inputText (ui w)))));
      [|exact He].
    now rewrite (proj1 (proj2 (handleTranslate_keeps _ _ _))).
  - destruct (find_attempt c (fetches w)); [|exact Hw].
    now rewrite (proj1 (proj2 (resume_keeps _ _ _))).
Qed.

(** X1.  As long as the levels picked are levels of the catalog, which is
    all the level buttons offer, the selected level is one of the catalog
    and [find] finds it: [handleTranslate] never throws
    "Invalid slang level". *)
Theorem selected_level_in_catalog (es : list event) :
  List.forallb catalog_select es = true ->
  exists l,
    In l slangLevels
    /\ id l = selectedLevel (ui (run (Mount :: es) initial_world))
    /\ find_level (selectedLevel (ui (run (Mount :: es) initial_world)))
       = Some l.
Proof.
  intros Hes.
  assert (H : forall l v, List.forallb catalog_select l = true ->
                find_level (selectedLevel (ui v)) <> None ->
                find_level (selectedLevel (ui (run l v))) <> None).
  { induction l as [|e l IH]; intros v Hl Hv; [exact Hv|].
    cbn [forallb] in Hl. apply andb_true_iff in Hl. destruct Hl as [He Hl].
    rewrite run_cons. apply IH; [exact Hl|now apply step_selected]. }
  rewrite run_cons.
  specialize (H es (step Mount initial_world) Hes).
  destruct (find_level
              (selectedLevel (ui (run es (step Mount initial_world)))))
    as [l|] eqn:E.
  - exists l. destruct (find_level_Some _ _ E) as [Hin Hid].
    repeat split; assumption.
  - elim H; [vm_compute; discriminate|reflexivity].
Qed.

Lemma selected_level_in_catalog_witness :
  List.forallb catalog_select
    [InputChange (js "hello world"); LevelSelect (js "crazy")] = true
  /\ exists l,
       In l slangLevels
       /\ id l = selectedLevel (ui (run select_crazy initial_world))
       /\ find_level (selectedLevel (ui (run select_crazy initial_world)))
          = Some l.
Proof.
  assert (H : List.forallb catalog_select
                [InputChange (js "hello world"); LevelSelect (js "crazy")]
              = true) by (vm_compute; reflexivity).
  split; [exact H|].
  exact (selected_level_in_catalog
           [InputChange (js "hello world"); LevelSelect (js "crazy")] H).
Defined.

Lemma abort_requests (P : attempt -> Prop) (c : nat) (w : world) :
  (forall a, P a ->
     P {| controller := controller a; aborted := true; body := body a;
          closure := closure a |}) ->
  Forall P (fetches w) -> Forall P (fetches (abort c w)).
Proof.
  intros HP H. setters. apply Forall_map.
  eapply Forall_impl; [|exact H]. cbn. intros a Ha.
  destruct (Nat.eqb (controller a) c); [now apply HP|exact Ha].
Qed.

Lemma handleTranslate_requests (r : component) (forceTranslate : bool)
    (w : world) :
  Forall (fun a => well_formed_request (body a)) (fetches w) ->
  Forall (fun a => well_formed_request (body a))
    (fetches (handleTranslate r forceTranslate w)).
Proof.
  intros H.
  destruct (JsString.falsy (JsString.trim (inputText r))
            || loading r && negb forceTranslate) eqn:G.
  - unfold handleTranslate. now rewrite G.
  - apply orb_false_iff in G. destruct G as [G1 G2].
    assert (Hin : JsString.trim (inputText r) <> []) by now apply falsy_cons.
    assert (Hgo : loading r = false \/ forceTranslate = true).
    { destruct (loading r); [right|now left]. now destruct forceTranslate. }
    destruct (handleTranslate_fetches r forceTranslate w Hin Hgo) as [_ F].
    assert (H0 : Forall (fun a => well_formed_request (body a))
                   (fetches match abortControllerRef w with
                            | Some c => abort c w
                            | None => w
                            end)).
    { destruct (abortControllerRef w) as [c|]; [|exact H].
      apply abort_requests; [intros a Ha; exact Ha|exact H]. }
    destruct (find_level (selectedLevel r)) as [l|] eqn:E.
    + destruct F as [F _]. rewrite F. apply Forall_app. split; [exact H0|].
      constructor; [|constructor]. split; [exact Hin|].
      exists l. split; [|reflexivity]. now apply (find_level_Some _ _ E).
    + destruct F as [F _]. now rewrite F.
Qed.

Lemma step_requests (e : event) (w : world) :
  Forall (fun a => well_formed_request (body a)) (fetches w) ->
  Forall (fun a => well_formed_request (body a)) (fetches (step e w)).
Proof.
  intros H. pose proof (step_passive e w) as P.
  destruct e; try (destruct P as (_ & _ & A & _); now rewrite A);
    clear P; cbn [step].
  - unfold unmount. destruct (abortControllerRef w) as [c|]; [|exact H].
    apply (abort_requests _ c w); [intros a Ha; exact Ha|exact H].
  - now apply handleTranslate_requests.
  - unfold handleLevelSelect.
    destruct (negb (JsString.falsy (JsString.trim (inputText (ui w)))));
      [apply handleTranslate_requests|]; exact H.
  - destruct (find_attempt c (fetches w)) as [a|]; [|exact H].
    destruct (resume_frame a o
                (set_fetches (remove_attempt c (fetches w)) w))
      as (_ & _ & _ & F & _).
    rewrite F. setters. unfold remove_attempt.
    apply Forall_forall. intros x Hx. apply filter_In in Hx.
    rewrite Forall_forall in H. now apply H.
Qed.

(** X13.  Whatever the events, every request in flight carries a text that
    is not blank and, as its level, the prompt of a level of the catalog:
    never a blank text, never a level id, never a prompt of its own. *)
Theorem requests_well_formed (w : world) :
  reachable w ->
  Forall (fun a => well_formed_request (body a)) (fetches w).
Proof.
  intros [es ->].
  assert (H : forall l v,
            Forall (fun a => well_formed_request (body a)) (fetches v) ->
            Forall (fun a => well_formed_request (body a))
              (fetches (run l v))).
  { induction l as [|e l IH]; intros v Hv; [exact Hv|].
    rewrite run_cons. apply IH. now apply step_requests. }
  apply H. constructor.
Qed.

Lemma requests_well_formed_witness :
  reachable (run third_translate initial_world)
  /\ Forall (fun a => well_formed_request (body a))
       (fetches (run third_translate initial_world)).
Proof.
  assert (Hr : reachable (run third_translate initial_world))
    by (exists (List.tl third_translate); vm_compute; reflexivity).
  split; [exact Hr|]. exact (requests_well_formed _ Hr).
Defined.

(* ================================================================== *)
(** ** The calls to the engine *)

Lemma split_lines_cons (s : jsstring) :
  exists l ls, JsString.split_lines s = l :: ls.
Proof.
  destruct s as [|c r]; cbn [JsString.split_lines]; [eauto|].
  destruct (c =? 10); [eauto|].
  destruct (JsString.split_lines r); eauto.
Qed.

Lemma animateText_calls (r : component) (w : world) :
  Forall animateText_call (gsap_calls w) ->
  Forall animateText_call (gsap_calls (animateText r w)).
Proof.
  intros H. unfold animateText.
  destruct (negb (isClient r) || negb (textRef w)
            || JsString.falsy (translatedText r)); [exact H|].
  destruct (List.length (children (ui w)) =? 0)%nat eqn:E; [exact H|].
  setters. apply Forall_app. split; [exact H|].
  constructor; [|constructor]. split; [|reflexivity].
  cbn [targets]. intros N. rewrite N in E. discriminate E.
Qed.

Lemma fire_calls (l : list (N * task)) (w : world) :
  Forall animateText_call (gsap_calls w) ->
  Forall animateText_call (gsap_calls (fire l w)).
Proof.
  revert w. induction l as [|[d t] r IH]; intros w H; cbn [fire];
    [exact H|].
  destruct (d <=? now w); [|exact H].
  apply IH. destruct t as [c|]; cbn [run_task]; [|exact H].
  now apply animateText_calls.
Qed.

Lemma step_calls (e : event) (w : world) :
  Forall animateText_call (gsap_calls w) ->
  Forall animateText_call (gsap_calls (step e w)).
Proof.
  intros H. destruct e; cbn [step].
  - exact H.
  - unfold unmount. now destruct (abortControllerRef w).
  - exact H.
  - now rewrite (proj2 (proj2 (proj2 (proj2 (proj2 (proj2
            (handleTranslate_keeps _ _ _))))))).
  - unfold handleLevelSelect.
    destruct (negb (JsString.falsy (JsString.trim (inputText (ui w)))));
      [|exact H].
    now rewrite (proj2 (proj2 (proj2 (proj2 (proj2 (proj2
            (handleTranslate_keeps _ _ _))))))).
  - exact H.
  - unfold handleCopy.
    now destruct (negb (isClient (ui w))
                  || JsString.falsy (translatedText (ui w))).
  - now apply animateText_calls.
  - destruct (find_attempt c (fetches w)); [|exact H].
    now rewrite (proj2 (proj2 (proj2 (proj2 (proj2 (resume_frame _ _ _)))))).
  - destruct (existsb (fun p => Nat.eqb (fst p) k) (clipboard w)); [|exact H].
    now destruct resolved.
  - destruct (run_frames_shape w) as [ts E]. now rewrite E.
  - now apply fire_calls.
Qed.

(** X7.  Whatever the events, every call the component has made to
    [gsap.fromTo] is on at least one element, from y 50 and opacity 0 to y 0
    and opacity 1, with duration 0.5, stagger 0.1 and ease "power1.out":
    the engine is never called on an empty sequence, and never with other
    variables. *)
Theorem engine_calls (w : world) :
  reachable w -> Forall animateText_call (gsap_calls w).
Proof.
  intros [es ->].
  assert (H : forall l v, Forall animateText_call (gsap_calls v) ->
                Forall animateText_call (gsap_calls (run l v))).
  { induction l as [|e l IH]; intros v Hv; [exact Hv|].
    rewrite run_cons. apply IH. now apply step_calls. }
  apply H. constructor.
Qed.

Lemma engine_calls_witness :
  let w := run (first_translation ++ [PlayAgain; PlayAgain]) initial_world in
  reachable w /\ List.length (gsap_calls w) = 2%nat
  /\ Forall animateText_call (gsap_calls w).
Proof.
  intros w.
  assert (Hr : reachable w)
    by (exists (List.tl first_translation ++ [PlayAgain; PlayAgain]);
        vm_compute; reflexivity).
  split; [exact Hr|]. split; [vm_compute; reflexivity|].
  exact (engine_calls w Hr).
Defined.

(** X8.  From the response to the animation.  A translation arrives for an
    attempt in flight, with no frame callback and no timer waiting; then
    the animation frame comes, and 100 ms or more pass.  If the render that
    asked for the translation had a result on the page, the engine is
    called once, on the lines of the new translation; if it had none (a
    first translation), the engine is not called. *)
Theorem translation_animates (w : world) (a : attempt) (status : N)
    (t : jsstring) (dt : N) :
  in_flight a w -> ok status = true -> t <> [] ->
  isClient (closure a) = true -> textRef w = true ->
  frames w = [] -> timers w = [] -> 100 <= dt ->
  gsap_calls
    (run [FetchSettled (controller a) (Response status (Data (Some t)));
          Frame; Advance dt] w)
  = gsap_calls w
    ++ (if JsString.falsy (translatedText (closure a)) then []
        else [animation (JsString.split_lines t)]).
Proof.
  intros [Hfind Hlive] Hok Ht Hc Href Hfr Hti Hdt.
  rewrite !run_cons. cbn [run fold_left].
  rewrite (step_FetchSettled _ _ _ Hfind).
  unfold handleTranslate_resume, try_block.
  rewrite Hlive, Hok. cbn [negb]. apply falsy_cons in Ht. rewrite Ht, Hc.
  cbn [step]. unfold run_frames. setters. rewrite Hfr. cbn [app fold_left].
  setters. rewrite Hti. cbn [insert_timer fire]. setters.
  replace (now w + 100 <=? now w + dt) with true
    by (symmetry; apply N.leb_le; lia).
  cbn [run_task]. unfold animateText. setters. rewrite Hc, Href.
  cbn [negb orb].
  destruct (JsString.falsy (translatedText (closure a)));
    [now rewrite app_nil_r|].
  unfold children. setters. unfold renderTranslatedText. rewrite Ht.
  destruct (split_lines_cons t) as (l & ls & E). rewrite E.
  reflexivity.
Qed.

Lemma translation_animates_witness :
  let w := run (first_translation ++ [Frame; Advance 100; Translate true])
             initial_world in
  let a := {| controller := 1; aborted := false;
              body := {| text := js "hello world";
                         level := js "Use moderate internet slang and abbreviations" |};
              closure := ui (run first_translation initial_world) |} in
  let t : jsstring := js "no cap" ++ 10 :: js "fr" in
  in_flight a w
  /\ gsap_calls
       (run [FetchSettled (controller a) (Response 200 (Data (Some t)));
             Frame; Advance 100] w)
     = [animation [js "no cap"; js "fr"]].
Proof.
  intros w a t.
  assert (Ha : in_flight a w) by (split; vm_compute; reflexivity).
  assert (Ht : t <> []) by (vm_compute; discriminate).
  assert (Hc : isClient (closure a) = true) by (vm_compute; reflexivity).
  assert (Hr : textRef w = true) by (vm_compute; reflexivity).
  assert (Hf : frames w = []) by (vm_compute; reflexivity).
  assert (Hti : timers w = []) by (vm_compute; reflexivity).
  assert (Hd : 100 <= 100) by (vm_compute; discriminate).
  split; [exact Ha|].
  rewrite (translation_animates w a 200 t 100 Ha eq_refl Ht Hc Hr Hf Hti Hd).
  vm_compute. reflexivity.
Defined.

(* ================================================================== *)
(** ** Errors that are thrown *)

(** X9.  An attempt in flight, not cancelled, whose fetch is rejected (the
    network failed) or whose response, with a status in 200..299, has a
    body that cannot be read, ends with the message of the error thrown in
    [error], or "Translation failed. Please try again." when that message
    is empty; with [translatedText] cleared and [loading] false. *)
Theorem thrown_error_completion (w : world) (a : attempt) (o : outcome)
    (m : jsstring) :
  in_flight a w ->
  o = Rejected m
  \/ (exists status, ok status = true /\ o = Response status (Unreadable m)) ->
  let w' := step (FetchSettled (controller a) o) w in
  error (ui w')
  = (if JsString.falsy m then js "Translation failed. Please try again."
     else m)
  /\ translatedText (ui w') = [] /\ loading (ui w') = false.
Proof.
  intros [Hfind Hlive] Ho w'. subst w'.
  rewrite (step_FetchSettled _ _ _ Hfind).
  unfold handleTranslate_resume, try_block. rewrite Hlive.
  destruct Ho as [-> | [status [Hok ->]]]; [|rewrite Hok; cbn [negb]];
    setters; repeat split.
Qed.

Lemma thrown_error_completion_witness :
  let w := run [Mount; InputChange (js "hello world"); Translate true]
             initial_world in
  let a := {| controller := 0; aborted := false;
              body := {| text := js "hello world";
                         level := js "Use moderate internet slang and abbreviations" |};
              closure := ui (run [Mount; InputChange (js "hello world")]
                               initial_world) |} in
  in_flight a w
  /\ error (ui (step (FetchSettled (controller a) (Rejected [])) w))
     = js "Translation failed. Please try again.".
Proof.
  intros w a.
  assert (H : in_flight a w) by (split; vm_compute; reflexivity).
  split; [exact H|].
  exact (proj1 (thrown_error_completion w a (Rejected []) [] H
                  (or_introl eq_refl))).
Defined.

(** X2.  [handleTranslate] past its guard with a selected level that is not
    in the catalog: it ends there and then with [error] =
    "Invalid slang level", [translatedText] cleared, [loading] false and the
    ref empty; no request leaves, but the request the ref held has been
    aborted all the same, and a controller has been made for nothing. *)
Theorem handleTranslate_invalid_level (r : component)
    (forceTranslate : bool) (w : world) :
  JsString.trim (inputText r) <> [] ->
  loading r = false \/ forceTranslate = true ->
  find_level (selectedLevel r) = None ->
  let w' := handleTranslate r forceTranslate w in
  error (ui w') = js "Invalid slang level"
  /\ translatedText (ui w') = []
  /\ loading (ui w') = false
  /\ abortControllerRef w' = None
  /\ fresh w' = S (fresh w)
  /\ fetches w'
     = fetches match abortControllerRef w with
               | Some c => abort c w
               | None => w
               end.
Proof.
  intros Hin Hgo Hl w'.
  destruct (handleTranslate_fetches r forceTranslate w Hin Hgo) as [Hf H].
  rewrite Hl in H. destruct H as (A & B & C & D & E).
  repeat split; assumption.
Qed.

Lemma handleTranslate_invalid_level_witness :
  let w := run [Mount; LevelSelect (js "ultra");
                InputChange (js "hello world")] initial_world in
  JsString.trim (inputText (ui w)) <> []
  /\ find_level (selectedLevel (ui w)) = None
  /\ error (ui (handleTranslate (ui w) true w)) = js "Invalid slang level".
Proof.
  intros w.
  assert (Hin : JsString.trim (inputText (ui w)) <> [])
    by (vm_compute; discriminate).
  assert (Hl : find_level (selectedLevel (ui w)) = None)
    by (vm_compute; reflexivity).
  split; [exact Hin|]. split; [exact Hl|].
  exact (proj1 (handleTranslate_invalid_level (ui w) true w Hin
                  (or_intror eq_refl) Hl)).
Defined.

(* ================================================================== *)
(** ** The guard, in terms of the text *)

Lemma trimStart_nil (s : jsstring) :
  JsString.trimStart s = [] <-> blank s = true.
Proof.
  unfold blank. induction s as [|c r IH]; cbn [JsString.trimStart forallb].
  - split; reflexivity.
  - destruct (JsString.is_white c); cbn [andb]; [exact IH|].
    split; discriminate.
Qed.

Lemma trimStart_head (s : jsstring) (c : N) (r : jsstring) :
  JsString.trimStart s = c :: r -> JsString.is_white c = false.
Proof.
  induction s as [|x s IH]; cbn [JsString.trimStart]; [discriminate|].
  destruct (JsString.is_white x) eqn:E; [exact IH|].
  intros H. inversion H; subst. exact E.
Qed.

Lemma blank_rev (s : jsstring) : blank (rev s) = blank s.
Proof.
  unfold blank.
  destruct (forallb JsString.is_white s) eqn:E.
  - apply forallb_forall. intros x Hx. apply in_rev in Hx.
    rewrite forallb_forall in E. now apply E.
  - destruct (forallb JsString.is_white (rev s)) eqn:E'; [|reflexivity].
    rewrite <- E. symmetry. apply forallb_forall. intros x Hx.
    rewrite forallb_forall in E'. apply E'. now apply in_rev in Hx.
Qed.

(** [trim] empties a text exactly when the text is blank. *)
Lemma trim_blank (s : jsstring) : JsString.trim s = [] <-> blank s = true.
Proof.
  unfold JsString.trim, JsString.trimEnd. split.
  - intros H.
    assert (H1 : JsString.trimStart (rev (JsString.trimStart s)) = []).
    { destruct (JsString.trimStart (rev (JsString.trimStart s)))
        as [|x l]; [reflexivity|].
      cbn [rev] in H. apply app_eq_nil in H. destruct H as [_ H].
      discriminate H. }
    apply trimStart_nil in H1. rewrite blank_rev in H1.
    destruct (JsString.trimStart s) as [|c r] eqn:E;
      [now apply trimStart_nil|].
    apply trimStart_head in E. unfold blank in H1. cbn [forallb] in H1.
    rewrite E in H1. discriminate H1.
  - intros H. apply trimStart_nil in H. now rewrite H.
Qed.

(** X5.  [handleTranslate] changes nothing exactly when the text is blank
    (all white space, the empty text included), or [loading] is true and
    [forceTranslate] is false.  In every other case it makes a controller:
    the guard is the only way through it that leaves no trace. *)
Theorem handleTranslate_noop_iff (r : component) (forceTranslate : bool)
    (w : world) :
  handleTranslate r forceTranslate w = w
  <-> blank (inputText r) = true
      \/ (loading r = true /\ forceTranslate = false).
Proof.
  split.
  - intros H.
    destruct (blank (inputText r)) eqn:B; [now left|right].
    assert (Hin : JsString.trim (inputText r) <> []).
    { intros N. apply trim_blank in N. congruence. }
    destruct forceTranslate.
    + exfalso.
      destruct (handleTranslate_fetches r true w Hin (or_intror eq_refl))
        as [Hf _].
      rewrite H in Hf. lia.
    + destruct (loading r) eqn:L; [now split|exfalso].
      destruct (handleTranslate_fetches r false w Hin (or_introl L))
        as [Hf _].
      rewrite H in Hf. lia.
  - intros [B | [L F]]; unfold handleTranslate.
    + apply trim_blank in B. now rewrite B.
    + rewrite L, F. now rewrite orb_true_r.
Qed.

(* ================================================================== *)
(** ** The lines of a translation *)

Lemma join_split (s : jsstring) : join_lines (JsString.split_lines s) = s.
Proof.
  induction s as [|c r IH]; [reflexivity|].
  cbn [JsString.split_lines].
  destruct (split_lines_cons r) as (l & ls & E). rewrite E in *.
  destruct (N.eqb_spec c 10) as [-> | _].
  - change (join_lines ([] :: l :: ls)) with (10 :: join_lines (l :: ls)).
    now rewrite IH.
  - destruct ls as [|l2 ls]; [cbn [join_lines] in *; now rewrite IH|].
    change (join_lines ((c :: l) :: l2 :: ls))
      with (c :: l ++ 10 :: join_lines (l2 :: ls)).
    change (join_lines (l :: l2 :: ls))
      with (l ++ 10 :: join_lines (l2 :: ls)) in IH.
    now rewrite IH.
Qed.

Lemma split_no_feed (s : jsstring) :
  Forall (fun l => ~ In 10 l) (JsString.split_lines s).
Proof.
  induction s as [|c r IH]; [repeat constructor; intros []|].
  cbn [JsString.split_lines].
  destruct (N.eqb_spec c 10) as [-> | Hc];
    [constructor; [intros []|exact IH]|].
  destruct (JsString.split_lines r) as [|l ls];
    [repeat constructor; intros [E | []]; congruence|].
  inversion IH as [|? ? Hl Hls]; subst. constructor; [|exact Hls].
  intros [E | H]; [congruence|now apply Hl].
Qed.

Lemma split_length (s : jsstring) :
  List.length (JsString.split_lines s) = S (count_occ N.eq_dec s 10).
Proof.
  induction s as [|c r IH]; [reflexivity|].
  cbn [JsString.split_lines count_occ].
  destruct (N.eqb_spec c 10) as [-> | Hc].
  - destruct (N.eq_dec 10 10) as [_|N]; [|now elim N].
    cbn [List.length]. now rewrite IH.
  - destruct (N.eq_dec c 10) as [E|_]; [now elim Hc|].
    destruct (JsString.split_lines r); [discriminate IH|exact IH].
Qed.

(** X6.  [renderTranslatedText] renders nothing for the empty text and, for
    any other text, one element per line: as many as the text has line
    feeds, plus one; no element contains a line feed; and the elements put
    back together with line feeds are the text, so nothing of the
    translation is lost or added on the page. *)
Theorem renderTranslatedText_lines (t : jsstring) :
  (renderTranslatedText t = [] <-> t = [])
  /\ (t <> [] ->
      join_lines (renderTranslatedText t) = t
      /\ Forall (fun l => ~ In 10 l) (renderTranslatedText t)
      /\ List.length (renderTranslatedText t)
         = S (count_occ N.eq_dec t 10)).
Proof.
  unfold renderTranslatedText. split.
  - destruct t as [|c r]; cbn [JsString.falsy]; [split; reflexivity|].
    destruct (split_lines_cons (c :: r)) as (l & ls & E). rewrite E.
    split; discriminate.
  - intros H. apply falsy_cons in H. rewrite H.
    split; [apply join_split|]. split; [apply split_no_feed|].
    apply split_length.
Qed.

Lemma renderTranslatedText_lines_witness :
  let t : jsstring := js "no cap" ++ 10 :: 10 :: js "fr" in
  t <> []
  /\ renderTranslatedText t = [js "no cap"; []; js "fr"]
  /\ join_lines (renderTranslatedText t) = t.
Proof.
  intros t.
  assert (Ht : t <> []) by (vm_compute; discriminate).
  split; [exact Ht|]. split; [vm_compute; reflexivity|].
  exact (proj1 (proj2 (renderTranslatedText_lines t) Ht)).
Defined.

(* ================================================================== *)
(** ** The catalog, and the level of the next request *)

Lemma catalog_lookup_id (l : SlangLevel) :
  In l slangLevels -> find_level (id l) = Some l.
Proof.
  intros H. repeat (destruct H as [<- | H]; [vm_compute; reflexivity|]).
  destruct H.
Qed.

(** X14.  The ids of the catalog are distinct: looking a level's id up
    gives that level, so each level button selects its own level and
    prompt; and what a lookup finds is a level of the catalog with the id
    looked up. *)
Theorem catalog_lookup (l : SlangLevel) :
  In l slangLevels ->
  find_level (id l) = Some l
  /\ (forall s l', find_level s = Some l' -> In l' slangLevels /\ id l' = s).
Proof.
  intros H. split; [now apply catalog_lookup_id|].
  intros s l'. apply find_level_Some.
Qed.

Lemma catalog_lookup_witness :
  In (nth 4 slangLevels (Build_SlangLevel [] [] [])) slangLevels
  /\ find_level (js "crazy")
     = Some (nth 4 slangLevels (Build_SlangLevel [] [] [])).
Proof.
  assert (H : In (nth 4 slangLevels (Build_SlangLevel [] [] [])) slangLevels)
    by (do 4 right; left; reflexivity).
  split; [exact H|].
  exact (proj1 (catalog_lookup
                  (nth 4 slangLevels (Build_SlangLevel [] [] [])) H)).
Defined.

(** X10.  The level picked is the level of the next translation: after
    [handleLevelSelect] with a level of the catalog, a click on Translate
    (the text not being blank) issues a request that carries the prompt of
    that level, bound to the controller the ref then holds. *)
Theorem level_then_translate (w : world) (l : SlangLevel) :
  reachable w -> JsString.trim (inputText (ui w)) <> [] ->
  In l slangLevels ->
  let w' := run [LevelSelect (id l); Translate true] w in
  exists a,
    in_flight a w'
    /\ abortControllerRef w' = Some (controller a)
    /\ body a = {| text := inputText (ui w); level := prompt l |}.
Proof.
  intros Hr Hin Hl w'. subst w'. rewrite !run_cons. cbn [run fold_left].
  set (w1 := step (LevelSelect (id l)) w).
  assert (Hwf : wf w1) by (apply step_wf; now apply reachable_wf).
  assert (E : inputText (ui w1) = inputText (ui w)
              /\ selectedLevel (ui w1) = id l).
  { subst w1. cbn [step]. unfold handleLevelSelect.
    destruct (negb (JsString.falsy (JsString.trim (inputText (ui w)))));
      [|split; reflexivity].
    destruct (handleTranslate_keeps (ui w) true (setSelectedLevel (id l) w))
      as (A & B & _).
    split; [exact A|exact B]. }
  destruct E as [E1 E2].
  assert (Hin1 : JsString.trim (inputText (ui w1)) <> [])
    by now rewrite E1.
  assert (Hl1 : find_level (selectedLevel (ui w1)) = Some l)
    by (rewrite E2; now apply catalog_lookup_id).
  destruct (handleTranslate_starts w1 true l Hwf Hin1 (or_intror eq_refl) Hl1)
    as (Hflight & _ & _ & _ & Href).
  eexists. split; [exact Hflight|]. split; [exact Href|].
  cbn [body]. now rewrite E1.
Qed.

Lemma level_then_translate_witness :
  let w := run [Mount; InputChange (js "hello world")] initial_world in
  let l := nth 4 slangLevels (Build_SlangLevel [] [] []) in
  reachable w /\ JsString.trim (inputText (ui w)) <> []
  /\ In l slangLevels
  /\ exists a,
       in_flight a (run [LevelSelect (id l); Translate true] w)
       /\ abortControllerRef (run [LevelSelect (id l); Translate true] w)
          = Some (controller a)
       /\ body a = {| text := inputText (ui w); level := prompt l |}.
Proof.
  intros w l.
  assert (Hr : reachable w)
    by (exists [InputChange (js "hello world")]; vm_compute; reflexivity).
  assert (Hin : JsString.trim (inputText (ui w)) <> [])
    by (vm_compute; discriminate).
  assert (Hl : In l slangLevels) by (do 4 right; left; reflexivity).
  split; [exact Hr|]. split; [exact Hin|]. split; [exact Hl|].
  exact (level_then_translate w l Hr Hin Hl).
Defined.

(* ================================================================== *)
(** ** What goes to the clipboard *)

Lemma step_clipboard (e : event) (w : world) :
  Forall (fun p => snd p <> []) (clipboard w) ->
  Forall (fun p => snd p <> []) (clipboard (step e w)).
Proof.
  intros H. destruct e; cbn [step].
  - exact H.
  - unfold unmount. now destruct (abortControllerRef w).
  - exact H.
  - now rewrite (proj1 (proj2 (proj2 (proj2 (proj2
            (handleTranslate_keeps _ _ _)))))).
  - unfold handleLevelSelect.
    destruct (negb (JsString.falsy (JsString.trim (inputText (ui w)))));
      [|exact H].
    now rewrite (proj1 (proj2 (proj2 (proj2 (proj2
            (handleTranslate_keeps _ _ _)))))).
  - exact H.
  - unfold handleCopy.
    destruct (negb (isClient (ui w))) eqn:C; cbn [orb]; [exact H|].
    destruct (JsString.falsy (translatedText (ui w))) eqn:T; [exact H|].
    setters. apply Forall_app. split; [exact H|].
    constructor; [|constructor]. cbn [snd]. now apply falsy_cons.
  - destruct (animateText_shape (ui w) w) as [gs E]. now rewrite E.
  - destruct (find_attempt c (fetches w)); [|exact H].
    now rewrite (proj2 (proj2 (proj2 (resume_keeps _ _ _)))).
  - destruct (existsb (fun p => Nat.eqb (fst p) k) (clipboard w)); [|exact H].
    assert (F : Forall (fun p => snd p <> [])
                  (filter (fun p => negb (Nat.eqb (fst p) k)) (clipboard w))).
    { apply Forall_forall. intros x Hx. apply filter_In in Hx.
      rewrite Forall_forall in H. now apply H. }
    now destruct resolved.
  - destruct (run_frames_shape w) as [ts E]. now rewrite E.
  - destruct (fire_shape (timers (set_now (now w + dt) w))
                (set_now (now w + dt) w)) as (b & ts & gs & E).
    now rewrite E.
Qed.

(** X15.  Whatever the events, no write of an empty text is ever handed to
    the clipboard: [handleCopy] returns at its guard when there is no
    result. *)
Theorem clipboard_never_empty (w : world) :
  reachable w -> Forall (fun p => snd p <> []) (clipboard w).
Proof.
  intros [es ->].
  assert (H : forall l v, Forall (fun p => snd p <> []) (clipboard v) ->
                Forall (fun p => snd p <> []) (clipboard (run l v))).
  { induction l as [|e l IH]; intros v Hv; [exact Hv|].
    rewrite run_cons. apply IH. now apply step_clipboard. }
  apply H. constructor.
Qed.

Lemma clipboard_never_empty_witness :
  let w := run (first_translation ++ [Copy]) initial_world in
  reachable w /\ List.length (clipboard w) = 1%nat
  /\ Forall (fun p => snd p <> []) (clipboard w).
Proof.
  intros w.
  assert (Hr : reachable w)
    by (exists (List.tl first_translation ++ [Copy]);
        vm_compute; reflexivity).
  split; [exact Hr|]. split; [vm_compute; reflexivity|].
  exact (clipboard_never_empty w Hr).
Defined.

(* ================================================================== *)
(** ** Completions that succeed, wherever the component has got to *)

Lemma handleTranslate_closures (r : component) (forceTranslate : bool)
    (w : world) :
  isClient r = true ->
  Forall (fun a => isClient (closure a) = true) (fetches w) ->
  Forall (fun a => isClient (closure a) = true)
    (fetches (handleTranslate r forceTranslate w)).
Proof.
  intros Hr H.
  destruct (JsString.falsy (JsString.trim (inputText r))
            || loading r && negb forceTranslate) eqn:G.
  - unfold handleTranslate. now rewrite G.
  - apply orb_false_iff in G. destruct G as [G1 G2].
    assert (Hin : JsString.trim (inputText r) <> []) by now apply falsy_cons.
    assert (Hgo : loading r = false \/ forceTranslate = true).
    { destruct (loading r); [right|now left]. now destruct forceTranslate. }
    destruct (handleTranslate_fetches r forceTranslate w Hin Hgo) as [_ F].
    assert (H0 : Forall (fun a => isClient (closure a) = true)
                   (fetches match abortControllerRef w with
                            | Some c => abort c w
                            | None => w
                            end)).
    { destruct (abortControllerRef w) as [c|]; [|exact H].
      apply abort_requests; [intros a Ha; exact Ha|exact H]. }
    destruct (find_level (selectedLevel r)) as [l|].
    + destruct F as [F _]. rewrite F. apply Forall_app. split; [exact H0|].
      constructor; [exact Hr|constructor].
    + destruct F as [F _]. now rewrite F.
Qed.

Lemma step_closures (e : event) (w : world) :
  isClient (ui w) = true ->
  Forall (fun a => isClient (closure a) = true) (fetches w) ->
  Forall (fun a => isClient (closure a) = true) (fetches (step e w)).
Proof.
  intros Hc H. pose proof (step_passive e w) as P.
  destruct e; try (destruct P as (_ & _ & A & _); now rewrite A);
    clear P; cbn [step].
  - unfold unmount. destruct (abortControllerRef w) as [c|]; [|exact H].
    apply (abort_requests _ c w); [intros a Ha; exact Ha|exact H].
  - now apply handleTranslate_closures.
  - unfold handleLevelSelect.
    destruct (negb (JsString.falsy (JsString.trim (inputText (ui w)))));
      [apply handleTranslate_closures|]; assumption.
  - destruct (find_attempt c (fetches w)) as [a|]; [|exact H].
    destruct (resume_frame a o
                (set_fetches (remove_attempt c (fetches w)) w))
      as (_ & _ & _ & F & _).
    rewrite F. setters. unfold remove_attempt.
    apply Forall_forall. intros x Hx. apply filter_In in Hx.
    rewrite Forall_forall in H. now apply H.
Qed.

(** Every request in flight was issued by a render of the mounted
    component, in which [isClient] is true. *)
Lemma reachable_closures (w : world) :
  reachable w -> Forall (fun a => isClient (closure a) = true) (fetches w).
Proof.
  intros [es ->]. rewrite run_cons.
  assert (H : forall l v, isClient (ui v) = true ->
                Forall (fun a => isClient (closure a) = true) (fetches v) ->
                Forall (fun a => isClient (closure a) = true)
                  (fetches (run l v))).
  { induction l as [|e l IH]; intros v Hv Hf; [exact Hf|].
    rewrite run_cons.
    apply IH; [now apply step_isClient|now apply step_closures]. }
  apply H; [reflexivity|constructor].
Qed.

(** C7, as amended.  An attempt in flight, not cancelled, whose response has
    a status in 200..299 and a non-empty [translatedText] ends with that
    value in [translatedText], [loading] false and the filter panel closed.
    The completion does not write [error]: it is as the completion finds it,
    which is empty when the fetch settles right after the attempt started.
    The animator is scheduled to run only after the lines of the
    translation are rendered: the completion, which leaves these lines as
    the elements under [textRef], makes no call to the engine and sets no
    timer; it leaves one animation-frame callback; the frame makes no call
    to the engine either and sets a timer of 100 ms that runs the
    animator. *)
Theorem successful_completion :
  (forall (w : world) (a : attempt) (status : N) (t : jsstring),
     reachable w -> in_flight a w -> ok status = true -> t <> [] ->
     let w' := step (FetchSettled (controller a)
                       (Response status (Data (Some t)))) w in
     translatedText (ui w') = t
     /\ loading (ui w') = false
     /\ isFilterOpen (ui w') = false
     /\ error (ui w') = error (ui w)
     /\ children (ui w') = JsString.split_lines t
     /\ gsap_calls w' = gsap_calls w
     /\ timers w' = timers w
     /\ exists r,
          frames w' = frames w ++ [r]
          /\ gsap_calls (step Frame w') = gsap_calls w
          /\ In (now w' + 100, AnimateText r) (timers (step Frame w')))
  /\ (forall (w : world) (forceTranslate : bool) (l : SlangLevel)
             (status : N) (t : jsstring),
     wf w ->
     JsString.trim (inputText (ui w)) <> [] ->
     loading (ui w) = false \/ forceTranslate = true ->
     find_level (selectedLevel (ui w)) = Some l ->
     ok status = true -> t <> [] ->
     let w' := run [Translate forceTranslate;
                    FetchSettled (fresh w) (Response status (Data (Some t)))]
                 w in
     translatedText (ui w') = t /\ loading (ui w') = false
     /\ error (ui w') = []).
Proof.
  split.
  - intros w a status t Hr Hflight Hok Ht w'.
    destruct (successful_completion_step w a status t Hflight Hok Ht)
      as (A1 & A2 & A3 & A4 & A5 & A6 & A7 & A8).
    fold w' in A1, A2, A3, A4, A5, A6, A7, A8.
    assert (Hc : isClient (closure a) = true).
    { pose proof (reachable_closures w Hr) as F.
      rewrite Forall_forall in F. apply F.
      destruct Hflight as [Hfind _].
      now apply (find_attempt_controller _ _ _ Hfind). }
    rewrite Hc in A7.
    repeat (split; [assumption|]).
    split.
    + unfold children. rewrite A2. unfold renderTranslatedText.
      apply falsy_cons in Ht. now rewrite A1, Ht.
    + repeat (split; [assumption|]).
      exists (closure a). split; [exact A7|]. split; [|now apply A8].
      cbn [step]. destruct (run_frames_shape w') as [ts E].
      rewrite E. exact A5.
  - intros w forceTranslate l status t Hwf Hin Hgo Hl Hok Ht w'. subst w'.
    destruct (handleTranslate_starts w forceTranslate l Hwf Hin Hgo Hl)
      as (Hflight & _ & Herr & _).
    cbn [run fold_left].
    destruct (successful_completion_step _ _ status t Hflight Hok Ht)
      as (B1 & B2 & _ & B4 & _).
    cbn [controller] in B1, B2, B4.
    rewrite B1, B2, B4. repeat split. exact Herr.
Qed.

Lemma successful_completion_witness :
  let w := run [Mount; InputChange (js "hello world"); Translate true]
             initial_world in
  let a := {| controller := 0; aborted := false;
              body := {| text := js "hello world";
                         level := js "Use moderate internet slang and abbreviations" |};
              closure := ui (run [Mount; InputChange (js "hello world")]
                               initial_world) |} in
  let t : jsstring := js "omg hello world fr fr" in
  let w' := step (FetchSettled (controller a)
                    (Response 200 (Data (Some t)))) w in
  reachable w /\ in_flight a w /\ t <> []
  /\ translatedText (ui w') = t
  /\ loading (ui w') = false
  /\ isFilterOpen (ui w') = false
  /\ error (ui w') = error (ui w).
Proof.
  intros w a t w'.
  assert (Hr : reachable w)
    by (exists [InputChange (js "hello world"); Translate true];
        vm_compute; reflexivity).
  assert (Ha : in_flight a w) by (split; vm_compute; reflexivity).
  assert (Ht : t <> []) by (vm_compute; discriminate).
  split; [exact Hr|]. split; [exact Ha|]. split; [exact Ht|].
  destruct (proj1 successful_completion w a 200 t Hr Ha eq_refl Ht)
    as (A1 & A2 & A3 & A4 & _).
  repeat split; assumption.
Defined.

(* ================================================================== *)
(** ** The flag, for the length of the delay *)









